(** * Stewrd Python SDK: the SSE stream decoder, the response types and the
      client facade, embedded from [src/stewrd/{types,streaming,client,errors}.py].

    Conventions of the embedding.
    - A Python [str] is a [string]; a character is an 8-bit code point.
    - Python values that travel through [json.loads] and [dict.get] are
      untyped, so dataclass fields hold a [pyval], exactly what the
      constructor was given.
    - A function that can raise returns a [result]; evaluation order is the
      order of the binds.
    - [json.loads] belongs to the Python standard library, not to this
      package: the decoder is stated over an arbitrary
      [json_loads : string -> loaded], which returns a value, raises
      [JSONDecodeError], or raises another exception of the interpreter.
      [Json.loads] below is an executable instance used to run examples. *)

From Stdlib Require Import ZArith List String Ascii Bool Lia.
Import ListNotations.
Open Scope list_scope.
Open Scope string_scope.

(* ------------------------------------------------------------------ *)
(** ** Python values, truthiness, exceptions *)

Module Py.

#[local] Set Warnings "-register-all".

(** A Python [float], named by the decimal literal it was read from:
    [FDec m e] is the binary64 nearest to [m * 10^e]. *)
Inductive pyfloat :=
| FDec (m e : Z)
| FInf (negative : bool)
| FNaN.

Inductive pyval :=
| PNone
| PBool (b : bool)
| PInt (z : Z)
| PFloat (f : pyfloat)
| PStr (s : string)
| PList (l : list pyval)
| PDict (d : list (string * pyval)).

(** A [dict] with string keys, in insertion order.  Lookup takes the first
    binding of a key; [dict_set] keeps one binding per key. *)
Definition dict := list (string * pyval).

Fixpoint dict_lookup (d : dict) (k : string) : option pyval :=
  match d with
  | [] => None
  | (k', v) :: d' => if String.eqb k' k then Some v else dict_lookup d' k
  end.

Fixpoint dict_set (d : dict) (k : string) (v : pyval) : dict :=
  match d with
  | [] => [(k, v)]
  | (k', v') :: d' =>
      if String.eqb k' k then (k', v) :: d' else (k', v') :: dict_set d' k v
  end.

Definition dict_keys (d : dict) : list string := map fst d.

(** [float(lit) != 0.0]: a nonzero decimal is a zero float only when it
    rounds (to nearest, ties to even) below the least subnormal [2^-1074],
    that is when [|m| * 10^e <= 2^-1075]. *)
Definition float_nonzero (f : pyfloat) : bool :=
  match f with
  | FDec m e =>
      if Z.eqb m 0 then false
      else if Z.leb 0 e then true
      else Z.ltb (10 ^ (- e)) (Z.abs m * 2 ^ 1075)%Z
  | FInf _ => true
  | FNaN => true
  end.

(** [bool(v)], as used by [or] and [if]. *)
Definition truthy (v : pyval) : bool :=
  match v with
  | PNone => false
  | PBool b => b
  | PInt z => negb (Z.eqb z 0)
  | PFloat f => float_nonzero f
  | PStr s => negb (String.eqb s "")
  | PList l => match l with [] => false | _ => true end
  | PDict d => match d with [] => false | _ => true end
  end.

Definition is_dict (v : pyval) : bool :=
  match v with PDict _ => true | _ => false end.

(** [a or b] on already evaluated operands. *)
Definition py_or (a b : pyval) : pyval := if truthy a then a else b.

(** Exceptions of the interpreter that [json.loads] can let through and
    that are no [JSONDecodeError]: [RecursionError] on deep nesting,
    [ValueError] on an integer literal over the digit limit,
    [MemoryError]. *)
Inductive builtin_error :=
| RecursionError
| ValueError
| MemoryError.

Inductive exn :=
| AttributeError
| TypeError
| JSONDecodeError
| RuntimeError (msg : string)
| StewrdError (status : Z) (code message docs : pyval)
| Builtin (e : builtin_error)
| StreamClosed.

(** The outcomes of [json.loads]. *)
Inductive loaded :=
| Loaded (v : pyval)
| DecodeError
| Escapes (e : builtin_error).

Inductive result (A : Type) :=
| Ok (a : A)
| Raise (e : exn).
Arguments Ok {A} a.
Arguments Raise {A} e.

Definition bind {A B} (r : result A) (k : A -> result B) : result B :=
  match r with
  | Ok a => k a
  | Raise e => Raise e
  end.

Fixpoint mapM {A B} (f : A -> result B) (l : list A) : result (list B) :=
  match l with
  | [] => Ok []
  | a :: l' =>
      bind (f a) (fun b => bind (mapM f l') (fun bs => Ok (b :: bs)))
  end.

(** [d.get(k, default)] on a [dict]. *)
Definition dict_get (d : dict) (k : string) (default : pyval) : pyval :=
  match dict_lookup d k with
  | Some x => x
  | None => default
  end.

(** [v.get(k, default)]: only a [dict] has the attribute [get]. *)
Definition get (v : pyval) (k : string) (default : pyval) : result pyval :=
  match v with
  | PDict d => Ok (dict_get d k default)
  | _ => Raise AttributeError
  end.

Fixpoint chars (s : string) : list pyval :=
  match s with
  | EmptyString => []
  | String c s' => PStr (String c EmptyString) :: chars s'
  end.

(** The items a [for] loop or comprehension draws from [v]. *)
Definition iter (v : pyval) : result (list pyval) :=
  match v with
  | PList l => Ok l
  | PDict d => Ok (map PStr (dict_keys d))
  | PStr s => Ok (chars s)
  | _ => Raise TypeError
  end.

(** *** [str] methods *)

Definition LF : ascii := "010"%char.

(** The block separator ["\n\n"] followed by [rest]. *)
Definition SEP (rest : string) : string := String LF (String LF rest).

(** [str.isspace] on one character of the Latin-1 range. *)
Definition isspace (c : ascii) : bool :=
  let n := nat_of_ascii c in
  ((9 <=? n) && (n <=? 13) || (28 <=? n) && (n <=? 32)
   || (n =? 133) || (n =? 160))%nat.

Fixpoint lstrip (s : string) : string :=
  match s with
  | EmptyString => EmptyString
  | String c s' => if isspace c then lstrip s' else s
  end.

Fixpoint rstrip (s : string) : string :=
  match s with
  | EmptyString => EmptyString
  | String c s' =>
      match rstrip s' with
      | EmptyString => if isspace c then EmptyString else String c EmptyString
      | r => String c r
      end
  end.

Definition strip (s : string) : string := rstrip (lstrip s).

(** [s.split("\n")]: never empty, keeps empty fields. *)
Fixpoint split_lines (s : string) : list string :=
  match s with
  | EmptyString => [EmptyString]
  | String c s' =>
      if Ascii.eqb c LF then EmptyString :: split_lines s'
      else match split_lines s' with
           | l :: ls => String c l :: ls
           | [] => [String c EmptyString]
           end
  end.

Definition startswith (s p : string) : bool := String.prefix p s.

(** [s[n:]] *)
Fixpoint drop (n : nat) (s : string) : string :=
  match n, s with
  | O, _ => s
  | S n', String _ s' => drop n' s'
  | S _, EmptyString => EmptyString
  end.

(** [not s] for a string *)
Definition str_empty (s : string) : bool := String.eqb s "".

End Py.
Import Py.

Declare Scope py_scope.
Delimit Scope py_scope with py.
Notation "x <- e ;; k" := (Py.bind e (fun x => k))
  (at level 61, e at next level, right associativity) : py_scope.
Open Scope py_scope.

(* ------------------------------------------------------------------ *)
(** ** types.py *)

Module InputFile.
Record t := mk { name : string; content : string }.
(** [dataclasses.asdict] *)
Definition asdict (f : t) : pyval :=
  PDict [("name", PStr (name f)); ("content", PStr (content f))].
End InputFile.

Module ResponseFile.
Record t := mk { name : pyval; content : pyval; url : pyval }.
Definition from_dict (data : pyval) : result t :=
  name <- Py.get data "name" (PStr "") ;;
  content <- Py.get data "content" PNone ;;
  url <- Py.get data "url" PNone ;;
  Ok (mk name content url).
End ResponseFile.

Module Usage.
Record t := mk { requests_used : pyval; requests_limit : pyval; tokens_used : pyval }.
Definition default : t := mk (PInt 0) (PInt 0) (PInt 0).
Definition from_dict (data : pyval) : result t :=
  requests_used <- Py.get data "requests_used" (PInt 0) ;;
  requests_limit <- Py.get data "requests_limit" (PInt 0) ;;
  tokens_used <- Py.get data "tokens_used" (PInt 0) ;;
  Ok (mk requests_used requests_limit tokens_used).
End Usage.

Module Meta.
Record t := mk { duration_ms : pyval; project_id : pyval; plan : pyval }.
Definition from_dict (data : pyval) : result t :=
  duration_ms <- Py.get data "duration_ms" (PInt 0) ;;
  project_id <- Py.get data "project_id" (PStr "") ;;
  plan <- Py.get data "plan" (PStr "") ;;
  Ok (mk duration_ms project_id plan).
End Meta.

Module AgentResponse.
Record t := mk {
  id : pyval;
  object : pyval;
  message : pyval;
  capabilities_used : pyval;
  files : list ResponseFile.t;
  usage : Usage.t;
  meta : Meta.t
}.
Definition from_dict (data : pyval) : result t :=
  id0 <- Py.get data "id" PNone ;;
  id <- (if truthy id0 then Ok id0 else Py.get data "request_id" (PStr "")) ;;
  object <- Py.get data "object" (PStr "agent.response") ;;
  message <- Py.get data "message" (PStr "") ;;
  capabilities_used <- Py.get data "capabilities_used" (PList []) ;;
  fs <- Py.get data "files" (PList []) ;;
  items <- Py.iter fs ;;
  files <- Py.mapM ResponseFile.from_dict items ;;
  u <- Py.get data "usage" (PDict []) ;;
  usage <- Usage.from_dict u ;;
  m <- Py.get data "meta" (PDict []) ;;
  meta <- Meta.from_dict m ;;
  Ok (mk id object message capabilities_used files usage meta).
End AgentResponse.

Inductive StreamEvent :=
| TokenEvent (content : pyval)
| ToolStartEvent (tool : pyval)
| ToolEndEvent (tool : pyval)
| DoneEvent (response : AgentResponse.t) (usage : Usage.t)
| ErrorEvent (code message : pyval).

(** The [type] discriminator every event class defaults. *)
Definition event_type_of (ev : StreamEvent) : string :=
  match ev with
  | TokenEvent _ => "token"
  | ToolStartEvent _ => "tool_start"
  | ToolEndEvent _ => "tool_end"
  | DoneEvent _ _ => "done"
  | ErrorEvent _ _ => "error"
  end.

(* ------------------------------------------------------------------ *)
(** ** An executable instance of [json.loads]

    The grammar of Python's [json] scanner in strict mode: objects (a
    repeated key keeps its first position and its last value), arrays,
    strings with the escapes of RFC 8259, numbers, [true], [false], [null]
    and the literals [NaN], [Infinity], [-Infinity].  An integer literal
    of more than 4300 digits raises [ValueError], CPython's default limit
    on the conversion of strings to [int].  A [\u] escape above the 8-bit
    range has no character in this embedding and is refused.  Nesting is
    not bounded: the depth at which CPython raises [RecursionError]
    depends on the state of its stack.  Recursion is bounded by a fuel of
    twice the input length plus two: every second call consumes a
    character. *)

Module Json.

Definition is_ws (c : ascii) : bool :=
  Ascii.eqb c " " || Ascii.eqb c "009" || Ascii.eqb c "010" || Ascii.eqb c "013".

Fixpoint skip_ws (s : string) : string :=
  match s with
  | String c s' => if is_ws c then skip_ws s' else s
  | EmptyString => s
  end.

Definition is_digit (c : ascii) : bool :=
  let n := nat_of_ascii c in ((48 <=? n) && (n <=? 57))%nat.

Fixpoint span (p : ascii -> bool) (s : string) : string * string :=
  match s with
  | String c s' =>
      if p c then let (a, b) := span p s' in (String c a, b) else (EmptyString, s)
  | EmptyString => (EmptyString, EmptyString)
  end.

Fixpoint digits_value (acc : Z) (s : string) : Z :=
  match s with
  | String c s' => digits_value (10 * acc + (Z.of_nat (nat_of_ascii c) - 48))%Z s'
  | EmptyString => acc
  end.

Definition hex_value (c : ascii) : option nat :=
  let n := nat_of_ascii c in
  if ((48 <=? n) && (n <=? 57))%nat then Some (n - 48)
  else if ((65 <=? n) && (n <=? 70))%nat then Some (n - 55)
  else if ((97 <=? n) && (n <=? 102))%nat then Some (n - 87)
  else None.

Definition DQ : ascii := "034"%char.
Definition BS : ascii := "092"%char.

(** The body of a string literal, after the opening quote. *)
Fixpoint scanstring (s : string) : option (string * string) :=
  match s with
  | EmptyString => None
  | String c s' =>
      if Ascii.eqb c DQ then Some (EmptyString, s')
      else if (nat_of_ascii c <? 32)%nat then None
      else if Ascii.eqb c BS then
        match s' with
        | String e s'' =>
            let simple (x : ascii) :=
              match scanstring s'' with
              | Some (body, rest) => Some (String x body, rest)
              | None => None
              end in
            if Ascii.eqb e DQ then simple DQ
            else if Ascii.eqb e BS then simple BS
            else if Ascii.eqb e "/" then simple "/"%char
            else if Ascii.eqb e "b" then simple "008"%char
            else if Ascii.eqb e "f" then simple "012"%char
            else if Ascii.eqb e "n" then simple "010"%char
            else if Ascii.eqb e "r" then simple "013"%char
            else if Ascii.eqb e "t" then simple "009"%char
            else if Ascii.eqb e "u" then
              match s'' with
              | String h1 (String h2 (String h3 (String h4 s4))) =>
                  match hex_value h1, hex_value h2, hex_value h3, hex_value h4 with
                  | Some 0, Some 0, Some a, Some b =>
                      match scanstring s4 with
                      | Some (body, rest) =>
                          Some (String (ascii_of_nat (16 * a + b)) body, rest)
                      | None => None
                      end
                  | _, _, _, _ => None
                  end
              | _ => None
              end
            else None
        | EmptyString => None
        end
      else
        match scanstring s' with
        | Some (body, rest) => Some (String c body, rest)
        | None => None
        end
  end.

(** What a scanner makes of the head of a text: a value and the rest, no
    match (a [JSONDecodeError] unless something else matches), or an
    exception that is no [JSONDecodeError]. *)
Inductive scanned :=
| Got (v : pyval) (rest : string)
| Bad
| Abort (e : builtin_error).

(** The default of [sys.int_max_str_digits]. *)
Definition int_max_str_digits : nat := 4300.

(** [NUMBER_RE], matched as a prefix: an optional minus, then [0] or a
    nonzero digit and more digits; optionally a dot and one or more digits;
    optionally [e] or [E], a sign and one or more digits.  The value is an
    [int] unless a fraction or an exponent matched. *)
Definition number (s : string) : scanned :=
  let (neg, s1) :=
    match s with
    | String "-" r => (true, r)
    | _ => (false, s)
    end in
  let int_part :=
    match s1 with
    | String c r =>
        if Ascii.eqb c "0" then Some ("0", r)
        else if is_digit c then Some (span is_digit s1)
        else None
    | EmptyString => None
    end in
  match int_part with
  | None => Bad
  | Some (ds, r1) =>
      let (frac, r2) :=
        match r1 with
        | String "." r =>
            let (fd, r') := span is_digit r in
            if str_empty fd then (None, r1) else (Some fd, r')
        | _ => (None, r1)
        end in
      let (expo, r3) :=
        match r2 with
        | String c r =>
            if Ascii.eqb c "e" || Ascii.eqb c "E" then
              let (sgn, r') :=
                match r with
                | String "-" t => (true, t)
                | String "+" t => (false, t)
                | _ => (false, r)
                end in
              let (ed, r'') := span is_digit r' in
              if str_empty ed then (None, r2)
              else (Some (if sgn then (- digits_value 0 ed)%Z else digits_value 0 ed), r'')
            else (None, r2)
        | EmptyString => (None, r2)
        end in
      let sign (z : Z) := if neg then (- z)%Z else z in
      match frac, expo with
      | None, None =>
          if (int_max_str_digits <? String.length ds)%nat then Abort ValueError
          else Got (PInt (sign (digits_value 0 ds))) r3
      | _, _ =>
          let fd := match frac with Some fd => fd | None => EmptyString end in
          let e := match expo with Some e => e | None => 0%Z end in
          Got (PFloat (FDec (sign (digits_value (digits_value 0 ds) fd))
                            (e - Z.of_nat (String.length fd))%Z)) r3
      end
  end.

Definition literal (s : string) : scanned :=
  if startswith s "null" then Got PNone (drop 4 s)
  else if startswith s "true" then Got (PBool true) (drop 4 s)
  else if startswith s "false" then Got (PBool false) (drop 5 s)
  else match number s with
       | Bad =>
           if startswith s "NaN" then Got (PFloat FNaN) (drop 3 s)
           else if startswith s "Infinity" then Got (PFloat (FInf false)) (drop 8 s)
           else if startswith s "-Infinity" then Got (PFloat (FInf true)) (drop 9 s)
           else Bad
       | r => r
       end.

Fixpoint scan_once (fuel : nat) (s : string) : scanned :=
  match fuel with
  | O => Bad
  | S n =>
      match s with
      | String c r =>
          if Ascii.eqb c DQ then
            match scanstring r with
            | Some (body, rest) => Got (PStr body) rest
            | None => Bad
            end
          else if Ascii.eqb c "{" then
            match skip_ws r with
            | String "}" rest => Got (PDict []) rest
            | r' => members n r' []
            end
          else if Ascii.eqb c "[" then
            match skip_ws r with
            | String "]" rest => Got (PList []) rest
            | r' => elements n r' []
            end
          else literal s
      | EmptyString => Bad
      end
  end
with elements (fuel : nat) (s : string) (acc : list pyval) : scanned :=
  match fuel with
  | O => Bad
  | S n =>
      match scan_once n s with
      | Got v r =>
          match skip_ws r with
          | String "," r' => elements n (skip_ws r') (v :: acc)
          | String "]" rest => Got (PList (rev (v :: acc))) rest
          | _ => Bad
          end
      | Bad => Bad
      | Abort e => Abort e
      end
  end
with members (fuel : nat) (s : string) (acc : dict) : scanned :=
  match fuel with
  | O => Bad
  | S n =>
      match s with
      | String c r =>
          if Ascii.eqb c DQ then
            match scanstring r with
            | Some (key, r1) =>
                match skip_ws r1 with
                | String ":" r2 =>
                    match scan_once n (skip_ws r2) with
                    | Got v r3 =>
                        match skip_ws r3 with
                        | String "," r4 => members n (skip_ws r4) (dict_set acc key v)
                        | String "}" rest => Got (PDict (dict_set acc key v)) rest
                        | _ => Bad
                        end
                    | Bad => Bad
                    | Abort e => Abort e
                    end
                | _ => Bad
                end
            | None => Bad
            end
          else Bad
      | EmptyString => Bad
      end
  end.

Definition loads (s : string) : loaded :=
  match scan_once (2 * String.length s + 2) (skip_ws s) with
  | Got v rest =>
      match skip_ws rest with
      | EmptyString => Loaded v
      | _ => DecodeError
      end
  | Bad => DecodeError
  | Abort e => Escapes e
  end.

(** Literals of examples are written with ['] for the double quote and [|]
    for the line feed. *)
Fixpoint lit (s : string) : string :=
  match s with
  | EmptyString => EmptyString
  | String c s' =>
      String (if Ascii.eqb c "'" then DQ else if Ascii.eqb c "|" then LF else c) (lit s')
  end.

End Json.

(* ------------------------------------------------------------------ *)
(** ** Sample wire data *)

Module Samples.
Import Json.

Definition token_block : string := lit "event: token|data: {'content':'hi'}".
Definition done_block : string :=
  lit "event: done|data: {'response':{'id':'r1','message':'done'},'usage':{'tokens_used':5}}".

(** The stream of the specification's example. *)
Definition two_events : string := token_block ++ SEP (done_block ++ SEP "").
Definition done_then_token : string := done_block ++ SEP (token_block ++ SEP "").

Definition no_meta : Meta.t := Meta.mk (PInt 0) (PStr "") (PStr "").
Definition five_tokens : Usage.t := Usage.mk (PInt 0) (PInt 0) (PInt 5).
Definition r1 : AgentResponse.t :=
  AgentResponse.mk (PStr "r1") (PStr "agent.response") (PStr "done") (PList []) []
    Usage.default no_meta.

(** A block tagged [done] with a usage only under [response]. *)
Definition nested_usage_data : string :=
  lit "{'response':{'id':'r1','usage':{'tokens_used':5}}}".
Definition nested_usage_block : string :=
  "event: done" ++ String LF ("data: " ++ nested_usage_data).
Definition nested_usage_dict : dict :=
  [("response", PDict [("id", PStr "r1"); ("usage", PDict [("tokens_used", PInt 5)])])].
Definition nested_usage_event : StreamEvent :=
  DoneEvent
    (AgentResponse.mk (PStr "r1") (PStr "agent.response") (PStr "") (PList []) []
       five_tokens no_meta)
    five_tokens.

(** The same with an empty top-level [usage] as well. *)
Definition empty_usage_data : string :=
  lit "{'usage':{},'response':{'usage':{'tokens_used':5}}}".
Definition empty_usage_block : string :=
  "event: done" ++ String LF ("data: " ++ empty_usage_data).

Definition request_id_only : dict := [("request_id", PStr "req_9")].
Definition empty_id : dict := [("id", PStr ""); ("request_id", PStr "req_9")].
Definition req_9 : AgentResponse.t :=
  AgentResponse.mk (PStr "req_9") (PStr "agent.response") (PStr "") (PList []) []
    Usage.default no_meta.

(** Blocks the parser cannot decode. *)
Definition broken_block : string := lit "event: token|data: {oops".
Definition number_block : string := lit "event: token|data: 5".

(** An object with one file and an unknown key; its decoding. *)
Definition one_file : dict :=
  [("files", PList [PDict [("name", PStr "a.txt"); ("url", PStr "u")]]);
   ("trace", PInt 1)].
Definition one_file_response : AgentResponse.t :=
  AgentResponse.mk (PStr "") (PStr "agent.response") (PStr "") (PList [])
    [ResponseFile.mk (PStr "a.txt") PNone (PStr "u")] Usage.default no_meta.

Definition token_data : string := lit "{'content':'hi'}".
Definition error_data : string := lit "{'code':'rate_limited'}".
Definition error_block : string := "event: error" ++ String LF ("data: " ++ error_data).
Definition null_response_block : string := lit "event: done|data: {'response':null}".

(** A block with an unknown tag and an integer of 4301 digits. *)
Fixpoint ones (n : nat) : string :=
  match n with
  | O => EmptyString
  | S n' => String "1" (ones n')
  end.
Definition long_integer : string := ones 4301.
Definition ping_block : string :=
  "event: ping" ++ String LF ("data: " ++ long_integer).

(** An [httpx.Client] that refuses header values outside ASCII, as
    httpx does, and builds its client otherwise. *)
Fixpoint ascii_only (s : string) : bool :=
  match s with
  | EmptyString => true
  | String c s' => (nat_of_ascii c <? 128)%nat && ascii_only s'
  end.
Definition ascii_headers (base_url : string) (timeout : pyfloat)
  (headers : list (string * string)) : option string :=
  if forallb (fun kv => ascii_only (snd kv)) headers then None
  else Some "UnicodeEncodeError".

(** Keep-alive traffic: line feeds and blanks. *)
Definition keep_alive : list string :=
  [String LF ""; String LF (String LF " "); String LF (String LF (String LF ""))].

End Samples.

(* ------------------------------------------------------------------ *)
(** ** streaming.py and client.py *)

Section Stewrd.

(** [json.loads] *)
Variable json_loads : string -> loaded.

(** *** [AgentStream._parse_sse_block] *)

(** One turn of the line loop: [(event_type, data)] before and after. *)
Definition scan_line (acc : string * string) (line : string) : string * string :=
  let (event_type, data) := acc in
  if startswith line "event:" then (strip (drop 6 line), data)
  else if startswith line "data:" then (event_type, data ++ strip (drop 5 line))
  else (event_type, data).

Definition scan_block (block : string) : string * string :=
  fold_left scan_line (split_lines block) ("", "").

(** The dispatch after [parsed = json.loads(data)] succeeded. *)
Definition dispatch (event_type : string) (parsed : pyval) : result (option StreamEvent) :=
  if String.eqb event_type "token" then
    content <- Py.get parsed "content" (PStr "") ;;
    Ok (Some (TokenEvent content))
  else if String.eqb event_type "tool_start" then
    tool <- Py.get parsed "tool" (PStr "") ;;
    Ok (Some (ToolStartEvent tool))
  else if String.eqb event_type "tool_end" then
    tool <- Py.get parsed "tool" (PStr "") ;;
    Ok (Some (ToolEndEvent tool))
  else if String.eqb event_type "done" then
    r <- Py.get parsed "response" (PDict []) ;;
    resp <- AgentResponse.from_dict r ;;
    u0 <- Py.get parsed "usage" PNone ;;
    usage_data <-
      (if truthy u0 then Ok u0
       else r0 <- Py.get parsed "response" PNone ;;
            Py.get (py_or r0 (PDict [])) "usage" (PDict [])) ;;
    usage <- Usage.from_dict usage_data ;;
    Ok (Some (DoneEvent resp usage))
  else if String.eqb event_type "error" then
    code <- Py.get parsed "code" (PStr "") ;;
    message <- Py.get parsed "message" (PStr "") ;;
    Ok (Some (ErrorEvent code message))
  else Ok None.

Definition _parse_sse_block (block : string) : result (option StreamEvent) :=
  let (event_type, data) := scan_block block in
  if str_empty event_type || str_empty data then Ok None
  else
    match json_loads data with
    | DecodeError => Ok None
    | Escapes e => Raise (Builtin e)
    | Loaded parsed => dispatch event_type parsed
    end.

(** *** [AgentStream.__iter__]

    The generator is a machine whose [frame] holds its local variables:
    the chunks [iter_text()] has yet to deliver, the [buffer], and whether
    the body has returned.  A frame with [returned = false] stands at the
    test of the [while] loop (the initial frame, with an empty buffer,
    falls through that test to the [for] loop). *)

(** ["\n\n" in buffer] together with [buffer.split("\n\n", 1)]: the text
    before and after the first pair of line feeds. *)
Fixpoint split_once (s : string) : option (string * string) :=
  match s with
  | EmptyString => None
  | String c s' =>
      match s' with
      | String c' s'' =>
          if Ascii.eqb c LF && Ascii.eqb c' LF then Some (EmptyString, s'')
          else match split_once s' with
               | Some (block, rest) => Some (String c block, rest)
               | None => None
               end
      | EmptyString => None
      end
  end.

Record frame := mkFrame {
  chunks : list string;
  buffer : string;
  returned : bool
}.

Inductive step_result :=
| Continue (f : frame)
| Yield (ev : StreamEvent) (f : frame)
| Return (f : frame)
| Throw (e : exn) (f : frame).

(** One turn of a loop, up to the next loop test, [yield], return or
    exception. *)
Definition step (f : frame) : step_result :=
  if returned f then Return f
  else
    match split_once (buffer f) with
    | Some (block, rest) =>
        let f' := mkFrame (chunks f) rest false in
        match _parse_sse_block block with
        | Raise e => Throw e (mkFrame (chunks f) rest true)
        | Ok None => Continue f'
        | Ok (Some ev) => Yield ev f'
        end
    | None =>
        match chunks f with
        | chunk :: chunks' => Continue (mkFrame chunks' (buffer f ++ chunk) false)
        | [] =>
            let f' := mkFrame [] (buffer f) true in
            if str_empty (strip (buffer f)) then Return f'
            else
              match _parse_sse_block (buffer f) with
              | Raise e => Throw e f'
              | Ok None => Return f'
              | Ok (Some ev) => Yield ev f'
              end
        end
    end.

(** Every turn that does not leave the generator shrinks this measure. *)
Definition weight (cs : list string) : nat :=
  fold_right (fun c n => S (String.length c + n)) 0 cs.

Definition size (f : frame) : nat :=
  if returned f then 0 else S (String.length (buffer f) + weight (chunks f)).

(** [self._final_response = event.response], done just before a [yield]. *)
Definition record_done (ev : StreamEvent) (final : option AgentResponse.t)
  : option AgentResponse.t :=
  match ev with
  | DoneEvent response _ => Some response
  | _ => final
  end.

(** [next(gen)]: run to the next [yield], to [StopIteration] or to an
    exception.  [final] is [self._final_response]. *)
Inductive next_result :=
| NYield (ev : StreamEvent) (f : frame) (final : option AgentResponse.t)
| NStop (f : frame)
| NRaise (e : exn) (f : frame)
| NFuel.

Fixpoint next_fuel (fuel : nat) (f : frame) (final : option AgentResponse.t)
  : next_result :=
  match fuel with
  | O => NFuel
  | S n =>
      match step f with
      | Continue f' => next_fuel n f' final
      | Yield ev f' => NYield ev f' (record_done ev final)
      | Return f' => NStop f'
      | Throw e f' => NRaise e f'
      end
  end.

Definition next (f : frame) (final : option AgentResponse.t) : next_result :=
  next_fuel (S (size f)) f final.

(** The [AgentStream] object: the chunks its response will deliver and
    the recorded final response. *)
Record AgentStream := mkStream {
  _response : list string;
  _final_response : option AgentResponse.t
}.

(** [AgentStream(response)] *)
Definition __init__ (response : list string) : AgentStream :=
  mkStream response None.

(** The frame of a generator just made by [__iter__]. *)
Definition __iter__ (self : AgentStream) : frame :=
  mkFrame (_response self) "" false.

(** Joining the chunks gives the text the response delivered. *)
Definition join (cs : list string) : string := fold_right String.append "" cs.

(** What a consumer that exhausts the generator observes: the events in
    order, how the iteration ended, and [self._final_response] afterwards. *)
Inductive ending :=
| Exhausted
| Raised (e : exn)
| OutOfFuel.

Record run := mkRun {
  events : list StreamEvent;
  ended : ending;
  recorded : option AgentResponse.t
}.

Definition emit (ev : StreamEvent) (r : run) : run :=
  mkRun (ev :: events r) (ended r) (recorded r).

Fixpoint drain_fuel (fuel : nat) (f : frame) (final : option AgentResponse.t) : run :=
  match fuel with
  | O => mkRun [] OutOfFuel final
  | S n =>
      match next f final with
      | NYield ev f' final' => emit ev (drain_fuel n f' final')
      | NStop _ => mkRun [] Exhausted final
      | NRaise e _ => mkRun [] (Raised e) final
      | NFuel => mkRun [] OutOfFuel final
      end
  end.

Definition drain_frame (f : frame) (final : option AgentResponse.t) : run :=
  drain_fuel (S (size f)) f final.

(** [list(self)], or a [for] loop over [self] that never breaks. *)
Definition drain (self : AgentStream) : run :=
  drain_frame (__iter__ self) (_final_response self).

(** *** [AgentStream.final_response] *)

Definition no_done : exn := RuntimeError "Stream ended without a done event".

Record outcome := mkOutcome {
  value : option (result AgentResponse.t);  (* [None]: out of fuel *)
  left_frame : frame;
  left_final : option AgentResponse.t
}.

Fixpoint final_response_fuel (fuel : nat) (f : frame) (final : option AgentResponse.t)
  : outcome :=
  match fuel with
  | O => mkOutcome None f final
  | S n =>
      match next f final with
      | NYield ev f' final' =>
          match ev with
          | DoneEvent response _ => mkOutcome (Some (Ok response)) f' final'
          | _ => final_response_fuel n f' final'
          end
      | NStop f' =>
          match final with
          | Some response => mkOutcome (Some (Ok response)) f' final
          | None => mkOutcome (Some (Raise no_done)) f' final
          end
      | NRaise e f' => mkOutcome (Some (Raise e)) f' final
      | NFuel => mkOutcome None f final
      end
  end.

Definition final_response (self : AgentStream) : outcome :=
  let f := __iter__ self in
  final_response_fuel (S (size f)) f (_final_response self).

(** *** The decoder as the specification words it

    Completed blocks are cut at each first pair of line feeds, left to
    right; what follows the last pair is the remainder. *)
Fixpoint split_blocks (s : string) : list string * string :=
  match s with
  | EmptyString => ([], EmptyString)
  | String c s' =>
      match s' with
      | String c' s'' =>
          if Ascii.eqb c LF && Ascii.eqb c' LF then
            let (bs, rem) := split_blocks s'' in (EmptyString :: bs, rem)
          else
            let (bs, rem) := split_blocks s' in
            match bs with
            | b :: bs' => (String c b :: bs', rem)
            | [] => ([], String c rem)
            end
      | EmptyString => ([], s)
      end
  end.

(** The blocks handed to the Block Parser: the completed ones, then the
    remainder when it is more than white space. *)
Definition blocks_of (text : string) : list string :=
  let (bs, rem) := split_blocks text in
  (bs ++ (if str_empty (strip rem) then [] else [rem]))%list.

(** Parse the blocks in order, emit every event, stop at an exception. *)
Fixpoint emit_all (blocks : list string) (final : option AgentResponse.t) : run :=
  match blocks with
  | [] => mkRun [] Exhausted final
  | b :: bs =>
      match _parse_sse_block b with
      | Raise e => mkRun [] (Raised e) final
      | Ok None => emit_all bs final
      | Ok (Some ev) => emit ev (emit_all bs (record_done ev final))
      end
  end.

(** The response of the most recent [DoneEvent] of a sequence. *)
Definition last_done (evs : list StreamEvent) (final : option AgentResponse.t)
  : option AgentResponse.t :=
  fold_left (fun acc ev => record_done ev acc) evs final.

Definition is_done (ev : StreamEvent) : bool :=
  match ev with DoneEvent _ _ => true | _ => false end.

Definition known_tags : list string :=
  ["token"; "tool_start"; "tool_end"; "done"; "error"].

(** *** client.py *)

(** An [httpx.Response] as far as this package reads it. *)
Record Response := mkResponse {
  status_code : Z;
  reason_phrase : string;
  body_chunks : list string
}.

(** [response.json()] *)
Definition json (response : Response) : result pyval :=
  match json_loads (join (body_chunks response)) with
  | Loaded v => Ok v
  | DecodeError => Raise JSONDecodeError
  | Escapes e => Raise (Builtin e)
  end.

(** [_AgentNamespace._build_body] *)
Definition _build_body (message : string) (capabilities : option (list string))
  (files : option (list InputFile.t)) (stream : bool) : dict :=
  let body := [("message", PStr message); ("stream", PBool stream)] in
  let body :=
    match capabilities with
    | Some cs => dict_set body "capabilities" (PList (map PStr cs))
    | None => body
    end in
  let body :=
    match files with
    | Some fs => dict_set body "files" (PList (map InputFile.asdict fs))
    | None => body
    end in
  body.

(** [Stewrd._handle_error]; it always raises, and this is what it raises. *)
Definition _handle_error (response : Response) : exn :=
  let fallback := py_or (PStr (reason_phrase response)) (PStr "Unknown error") in
  let attempt :=
    data <- json response ;;
    err <- Py.get data "error" data ;;
    code <- Py.get err "code" (PStr "unknown_error") ;;
    message <- Py.get err "message" fallback ;;
    docs <- Py.get err "docs" PNone ;;
    Ok (code, message, docs) in
  match attempt with
  | Ok (code, message, docs) => StewrdError (status_code response) code message docs
  | Raise _ => StewrdError (status_code response) (PStr "unknown_error") fallback PNone
  end.

(** [Stewrd._request], given the response the transport [send] returns. *)
Definition _request (send : string -> dict -> Response) (path : string) (body : dict)
  : result Response :=
  let response := send path body in
  if (400 <=? status_code response)%Z then Raise (_handle_error response)
  else Ok response.

(** [_AgentNamespace.run] *)
Definition run_agent (send : string -> dict -> Response) (message : string)
  (capabilities : option (list string)) (files : option (list InputFile.t))
  : result AgentResponse.t :=
  let body := _build_body message capabilities files false in
  resp <- _request send "/v1/agent" body ;;
  data <- json resp ;;
  AgentResponse.from_dict data.

(** A response opened by [self._client.stream(...)], with the state of
    its stream. *)
Record Streaming := mkStreaming {
  response_of : Response;
  is_closed : bool
}.

(** [Stewrd._request] with [stream=True], the first branch of the method.
    The context manager of [self._client.stream] is entered and kept in
    a local.  On a status of 400 or more the body is read, the manager
    exited and the error raised.  Otherwise the response is returned and
    the manager, never exited, is dropped with the frame: its finaliser
    closes the response. *)
Definition _request_stream (send : string -> dict -> Response) (path : string)
  (body : dict) : result Streaming :=
  let response := send path body in
  if (400 <=? status_code response)%Z then Raise (_handle_error response)
  else Ok (mkStreaming response true).


(** The [AgentStream] around such a response. *)
Record StreamHandle := mkHandle {
  handle_response : Streaming;
  handle_final : option AgentResponse.t
}.



(** [_AgentNamespace.stream] *)
Definition stream_agent (send : string -> dict -> Response) (message : string)
  (capabilities : option (list string)) (files : option (list InputFile.t))
  : result StreamHandle :=
  let body := _build_body message capabilities files true in
  resp <- _request_stream send "/v1/agent" body ;;
  Ok (mkHandle resp None).

(** A text delivered one character per chunk. *)
Fixpoint one_by_one (s : string) : list string :=
  match s with
  | EmptyString => []
  | String c s' => String c EmptyString :: one_by_one s'
  end.

(** Blocks and remainder put back on the wire. *)
Definition reassemble (blocks : list string) (rem : string) : string :=
  fold_right (fun b acc => b ++ SEP acc) rem blocks.

(** The error object of an error body: under the key [error] when the
    body is an object that has it, the body itself otherwise. *)
Definition error_object (data : pyval) : pyval :=
  match data with
  | PDict d => dict_get d "error" data
  | _ => data
  end.

Definition not_done (ev : StreamEvent) : bool := negb (is_done ev).

(** Frames the generator can be in: once it has returned, the chunks
    are used up. *)
Definition frame_ok (f : frame) : Prop := returned f = true -> chunks f = [].

(** *** Further vocabulary of the statements *)

(** The keys each decoder of types.py reads. *)
Definition file_keys : list string := ["name"; "content"; "url"].
Definition usage_keys : list string :=
  ["requests_used"; "requests_limit"; "tokens_used"].
Definition meta_keys : list string := ["duration_ms"; "project_id"; "plan"].
Definition response_keys : list string :=
  ["id"; "request_id"; "object"; "message"; "capabilities_used"; "files";
   "usage"; "meta"].

(** Two dicts that hold the same under every key of [keys]. *)
Definition agree (keys : list string) (d d' : dict) : Prop :=
  forall k, In k keys -> dict_lookup d k = dict_lookup d' k.

(** What [ResponseFile.from_dict] makes of one item of [files]. *)
Definition decodes_file (item : pyval) (f : ResponseFile.t) : Prop :=
  exists fd,
    item = PDict fd
    /\ f = ResponseFile.mk (dict_get fd "name" (PStr ""))
                           (dict_get fd "content" PNone)
                           (dict_get fd "url" PNone).

(** A string with a line feed in it. *)
Fixpoint has_lf (s : string) : bool :=
  match s with
  | EmptyString => false
  | String c s' => Ascii.eqb c LF || has_lf s'
  end.

(** A string of white space only (the empty one included). *)
Fixpoint all_space (s : string) : bool :=
  match s with
  | EmptyString => true
  | String c s' => isspace c && all_space s'
  end.

(** A line the scan of a block reads as an [event:] line, as a [data:]
    line. *)
Definition event_line (line : string) : bool := startswith line "event:".
Definition data_line (line : string) : bool :=
  negb (startswith line "event:") && startswith line "data:".

(** The response of the first [DoneEvent] of a sequence. *)
Fixpoint first_done (evs : list StreamEvent) : option AgentResponse.t :=
  match evs with
  | [] => None
  | DoneEvent response _ :: _ => Some response
  | _ :: evs' => first_done evs'
  end.

(** What [final_response] answers, read off a complete run: the first
    done response; without one, the exception that ended the run, or
    else the response recorded before, or else the [RuntimeError]. *)
Definition verdict (r : run) (final : option AgentResponse.t)
  : option (result AgentResponse.t) :=
  match first_done (events r) with
  | Some response => Some (Ok response)
  | None =>
      match ended r with
      | Exhausted =>
          Some (match final with
                | Some response => Ok response
                | None => Raise no_done
                end)
      | Raised e => Some (Raise e)
      | OutOfFuel => None
      end
  end.

(** *** [Stewrd.__init__] *)

Definition _DEFAULT_BASE_URL : string := "https://api.stewrd.dev".
Definition _DEFAULT_TIMEOUT : pyfloat := FDec 1200 (-1).
Definition _USER_AGENT : string := "stewrd-python/1.0.0".

(** [s.rstrip(c)] for a single character [c]. *)
Fixpoint rstrip_char (c : ascii) (s : string) : string :=
  match s with
  | EmptyString => EmptyString
  | String x s' =>
      match rstrip_char c s' with
      | EmptyString => if Ascii.eqb x c then EmptyString else String x EmptyString
      | r => String x r
      end
  end.

(** The client once constructed: its fields and what it handed to
    [httpx.Client]. *)
Record Client := mkClient {
  _api_key : string;
  _base_url : string;
  timeout : pyfloat;
  headers : list (string * string)
}.

(** How the constructor ends; [E] is the type of what [httpx.Client]
    can raise. *)
Inductive construction (E : Type) :=
| Built (client : Client)
| RaiseValueError (msg : string)
| RaiseFromHttpx (e : E).
Arguments Built {E} client.
Arguments RaiseValueError {E} msg.
Arguments RaiseFromHttpx {E} e.

(** [Stewrd(api_key, base_url=..., timeout=...)]; [None] is an argument
    left to its default.  [httpx_Client base_url timeout headers] is the
    call of [httpx.Client], which belongs to httpx: it answers [None]
    when it builds its client and [Some e] when it raises [e] (as it
    does on a header value it cannot encode). *)
Definition Stewrd__init__ {E : Type}
  (httpx_Client : string -> pyfloat -> list (string * string) -> option E)
  (api_key : string) (base_url : option string) (timeout : option pyfloat)
  : construction E :=
  let base_url := match base_url with Some u => u | None => _DEFAULT_BASE_URL end in
  let timeout := match timeout with Some t => t | None => _DEFAULT_TIMEOUT end in
  if str_empty api_key then
    RaiseValueError
      (Json.lit "An API key is required. Pass it as the first argument: Stewrd('sk-stw_...')")
  else
    let stored := rstrip_char "/" base_url in
    let headers := [("Authorization", "Bearer " ++ api_key);
                    ("Content-Type", "application/json");
                    ("User-Agent", _USER_AGENT)] in
    match httpx_Client stored timeout headers with
    | Some e => RaiseFromHttpx e
    | None => Built (mkClient api_key stored timeout headers)
    end.

(** [n] times the character [c]. *)
Fixpoint repeat_char (c : ascii) (n : nat) : string :=
  match n with
  | O => EmptyString
  | S n' => String c (repeat_char c n')
  end.

(* ------------------------------------------------------------------ *)
(** ** Properties *)

(** *** Strings *)

Lemma append_assoc (a b c : string) : (a ++ b) ++ c = a ++ (b ++ c).
Proof. induction a as [|x a IH]; simpl; [reflexivity | now rewrite IH]. Qed.

Lemma append_empty_r (a : string) : a ++ "" = a.
Proof. induction a as [|x a IH]; simpl; [reflexivity | now rewrite IH]. Qed.

Lemma length_append (a b : string) :
  String.length (a ++ b) = String.length a + String.length b.
Proof. induction a as [|x a IH]; simpl; [reflexivity | now rewrite IH]. Qed.

Lemma str_empty_true (s : string) : str_empty s = true <-> s = "".
Proof. unfold str_empty. apply String.eqb_eq. Qed.

Lemma str_empty_false (s : string) : str_empty s = false <-> s <> "".
Proof. unfold str_empty. apply String.eqb_neq. Qed.

(** *** The block separator *)

Lemma split_once_cons (c c' : ascii) (s : string) :
  split_once (String c (String c' s)) =
  if Ascii.eqb c LF && Ascii.eqb c' LF then Some ("", s)
  else match split_once (String c' s) with
       | Some (block, rest) => Some (String c block, rest)
       | None => None
       end.
Proof. reflexivity. Qed.

Lemma split_blocks_cons (c c' : ascii) (s : string) :
  split_blocks (String c (String c' s)) =
  if Ascii.eqb c LF && Ascii.eqb c' LF then
    let (bs, rem) := split_blocks s in ("" :: bs, rem)
  else
    let (bs, rem) := split_blocks (String c' s) in
    match bs with
    | b :: bs' => (String c b :: bs', rem)
    | [] => ([], String c rem)
    end.
Proof. reflexivity. Qed.

(** A block that was found stays the first block when text is appended. *)
Lemma split_once_append (s x block rest : string) :
  split_once s = Some (block, rest) ->
  split_once (s ++ x) = Some (block, rest ++ x).
Proof.
  revert block rest.
  induction s as [|c s IH]; intros block rest H; [discriminate|].
  destruct s as [|c' s]; [discriminate|].
  change (String c (String c' s) ++ x) with (String c (String c' (s ++ x))).
  rewrite split_once_cons in *.
  destruct (Ascii.eqb c LF && Ascii.eqb c' LF).
  - now inversion H.
  - destruct (split_once (String c' s)) as [[b r]|] eqn:E; [|discriminate].
    inversion H; subst.
    change (String c' (s ++ x)) with (String c' s ++ x).
    now rewrite (IH b rest eq_refl).
Qed.

Lemma ascii_lf_pair (c c' : ascii) :
  Ascii.eqb c LF && Ascii.eqb c' LF = true <-> c = LF /\ c' = LF.
Proof.
  rewrite andb_true_iff, !Ascii.eqb_eq. tauto.
Qed.

(** [split_once] cuts at a pair of line feeds... *)
Lemma split_once_eq (s block rest : string) :
  split_once s = Some (block, rest) -> s = block ++ SEP rest.
Proof.
  revert block rest.
  induction s as [|c s IH]; intros block rest H; [discriminate|].
  destruct s as [|c' s]; [discriminate|].
  rewrite split_once_cons in H.
  destruct (Ascii.eqb c LF && Ascii.eqb c' LF) eqn:E.
  - apply ascii_lf_pair in E as [-> ->]. now inversion H.
  - destruct (split_once (String c' s)) as [[b r]|] eqn:E'; [|discriminate].
    inversion H; subst. simpl. f_equal. now apply IH.
Qed.

(** ... and at the first one. *)
Lemma split_once_first (s block rest : string) :
  split_once s = Some (block, rest) ->
  forall b r, s = b ++ SEP r -> String.length block <= String.length b.
Proof.
  revert block rest.
  induction s as [|c s IH]; intros block rest H b r Hs; [discriminate|].
  destruct s as [|c' s]; [discriminate|].
  rewrite split_once_cons in H.
  destruct (Ascii.eqb c LF && Ascii.eqb c' LF) eqn:E.
  - inversion H; subst. simpl. lia.
  - destruct (split_once (String c' s)) as [[b0 r0]|] eqn:E'; [|discriminate].
    inversion H; subst.
    destruct b as [|x b].
    + simpl in Hs. inversion Hs; subst.
      rewrite !Ascii.eqb_refl in E. discriminate.
    + simpl in Hs. inversion Hs; subst. simpl.
      apply le_n_S. eapply IH; eauto.
Qed.

Lemma split_once_none (s : string) :
  split_once s = None -> forall b r, s <> b ++ SEP r.
Proof.
  induction s as [|c s IH]; intros H b r Hs.
  - destruct b; discriminate.
  - destruct s as [|c' s].
    + destruct b as [|x [|y b]]; discriminate.
    + rewrite split_once_cons in H.
      destruct (Ascii.eqb c LF && Ascii.eqb c' LF) eqn:E; [discriminate|].
      destruct (split_once (String c' s)) as [[b0 r0]|] eqn:E'; [discriminate|].
      destruct b as [|x b].
      * simpl in Hs. inversion Hs; subst.
        rewrite !Ascii.eqb_refl in E. discriminate.
      * simpl in Hs. inversion Hs; subst. eapply IH; eauto.
Qed.

Lemma split_once_length (s block rest : string) :
  split_once s = Some (block, rest) ->
  String.length s = String.length block + 2 + String.length rest.
Proof.
  intros H. apply split_once_eq in H. subst.
  rewrite length_append. unfold SEP. simpl. lia.
Qed.

(** The one-pass cut of the specification and the loop's repeated
    [split] agree. *)
Lemma split_blocks_unfold (s : string) :
  split_blocks s =
  match split_once s with
  | Some (block, rest) => let (bs, rem) := split_blocks rest in (block :: bs, rem)
  | None => ([], s)
  end.
Proof.
  induction s as [|c s IH]; [reflexivity|].
  destruct s as [|c' s]; [reflexivity|].
  rewrite split_once_cons, split_blocks_cons.
  destruct (Ascii.eqb c LF && Ascii.eqb c' LF); [reflexivity|].
  rewrite IH.
  destruct (split_once (String c' s)) as [[b r]|]; [|reflexivity].
  now destruct (split_blocks r).
Qed.

(** *** The generator terminates *)

Lemma step_continue_size (f f' : frame) :
  step f = Continue f' -> size f' < size f.
Proof.
  unfold step, size. destruct (returned f) eqn:R; [discriminate|].
  destruct (split_once (buffer f)) as [[block rest]|] eqn:E.
  - apply split_once_length in E.
    destruct (_parse_sse_block block) as [[ev|]|e]; intros H; inversion H; subst.
    simpl. lia.
  - destruct (chunks f) as [|chunk cs] eqn:C.
    + destruct (str_empty (strip (buffer f))); [discriminate|].
      destruct (_parse_sse_block (buffer f)) as [[ev|]|e]; discriminate.
    + intros H; inversion H; subst. simpl. rewrite length_append. lia.
Qed.

Lemma step_yield_size (f f' : frame) (ev : StreamEvent) :
  step f = Yield ev f' -> size f' < size f.
Proof.
  unfold step, size. destruct (returned f) eqn:R; [discriminate|].
  destruct (split_once (buffer f)) as [[block rest]|] eqn:E.
  - apply split_once_length in E.
    destruct (_parse_sse_block block) as [[ev'|]|e]; intros H; inversion H; subst.
    simpl. lia.
  - destruct (chunks f) as [|chunk cs] eqn:C; [|discriminate].
    destruct (str_empty (strip (buffer f))); [discriminate|].
    destruct (_parse_sse_block (buffer f)) as [[ev'|]|e];
      intros H; inversion H; subst. simpl. lia.
Qed.

(** Any fuel above the measure gives the same answer. *)
Lemma next_fuel_stable (n m : nat) (f : frame) (final : option AgentResponse.t) :
  size f < n -> size f < m -> next_fuel n f final = next_fuel m f final.
Proof.
  revert m f.
  induction n as [|n IH]; intros m f Hn Hm; [lia|].
  destruct m as [|m]; [lia|]. simpl.
  destruct (step f) as [f'| | |] eqn:E; try reflexivity.
  apply step_continue_size in E. apply IH; lia.
Qed.

Lemma next_unfold (f : frame) (final : option AgentResponse.t) :
  next f final =
  match step f with
  | Continue f' => next f' final
  | Yield ev f' => NYield ev f' (record_done ev final)
  | Return f' => NStop f'
  | Throw e f' => NRaise e f'
  end.
Proof.
  unfold next at 1. simpl.
  destruct (step f) as [f'| | |] eqn:E; try reflexivity.
  apply step_continue_size in E. apply next_fuel_stable; lia.
Qed.

Lemma next_fuel_total (n : nat) (f : frame) (final : option AgentResponse.t) :
  size f < n -> next_fuel n f final <> NFuel.
Proof.
  revert f. induction n as [|n IH]; intros f Hn; [lia|]. simpl.
  destruct (step f) as [f'| | |] eqn:E; try discriminate.
  apply step_continue_size in E. apply IH; lia.
Qed.

Lemma next_total (f : frame) (final : option AgentResponse.t) :
  next f final <> NFuel.
Proof. apply next_fuel_total. lia. Qed.

Lemma next_fuel_yield_size (n : nat) (f f' : frame) (ev : StreamEvent)
  (final final' : option AgentResponse.t) :
  next_fuel n f final = NYield ev f' final' ->
  size f' < size f /\ final' = record_done ev final.
Proof.
  revert f. induction n as [|n IH]; intros f H; [discriminate|]. simpl in H.
  destruct (step f) as [f0|ev0 f0|f0|e f0] eqn:E; try discriminate.
  - apply IH in H. apply step_continue_size in E. split; [lia | tauto].
  - inversion H; subst. apply step_yield_size in E. tauto.
Qed.

Lemma next_yield_size (f f' : frame) (ev : StreamEvent)
  (final final' : option AgentResponse.t) :
  next f final = NYield ev f' final' ->
  size f' < size f /\ final' = record_done ev final.
Proof. apply next_fuel_yield_size. Qed.

Lemma drain_fuel_stable (n m : nat) (f : frame) (final : option AgentResponse.t) :
  size f < n -> size f < m -> drain_fuel n f final = drain_fuel m f final.
Proof.
  revert m f final.
  induction n as [|n IH]; intros m f final Hn Hm; [lia|].
  destruct m as [|m]; [lia|]. simpl.
  destruct (next f final) as [ev f' final'| | |] eqn:E; try reflexivity.
  apply next_yield_size in E as [E _]. f_equal. apply IH; lia.
Qed.

(** The loop of the generator, one turn at a time. *)
Lemma drain_frame_unfold (f : frame) (final : option AgentResponse.t) :
  drain_frame f final =
  match step f with
  | Continue f' => drain_frame f' final
  | Yield ev f' => emit ev (drain_frame f' (record_done ev final))
  | Return _ => mkRun [] Exhausted final
  | Throw e _ => mkRun [] (Raised e) final
  end.
Proof.
  unfold drain_frame at 1. simpl. rewrite next_unfold.
  destruct (step f) as [f0|ev0 f0|f0|e f0] eqn:E; try reflexivity.
  - apply step_continue_size in E.
    unfold drain_frame. simpl.
    destruct (next f0 final) as [ev f' final'| | |] eqn:N; try reflexivity.
    apply next_yield_size in N as [N _]. f_equal. apply drain_fuel_stable; lia.
  - apply step_yield_size in E. f_equal. apply drain_fuel_stable; lia.
Qed.

Lemma drain_frame_returned (f : frame) (final : option AgentResponse.t) :
  returned f = true -> drain_frame f final = mkRun [] Exhausted final.
Proof.
  intros R. rewrite drain_frame_unfold. unfold step. now rewrite R.
Qed.

Lemma blocks_of_unfold (s : string) :
  blocks_of s =
  match split_once s with
  | Some (block, rest) => block :: blocks_of rest
  | None => if str_empty (strip s) then [] else [s]
  end.
Proof.
  unfold blocks_of. rewrite split_blocks_unfold.
  destruct (split_once s) as [[block rest]|]; [|reflexivity].
  now destruct (split_blocks rest).
Qed.

(** The generator run to its end does what the specification says on the
    text still to be decoded: the buffer followed by the chunks to come. *)
Lemma drain_frame_spec (f : frame) (final : option AgentResponse.t) :
  returned f = false ->
  drain_frame f final = emit_all (blocks_of (buffer f ++ join (chunks f))) final.
Proof.
  remember (size f) as n eqn:Hn. revert f final Hn.
  induction n as [n IH] using lt_wf_ind. intros f final Hn R.
  rewrite drain_frame_unfold.
  destruct (step f) as [f0|ev0 f0|f0|e f0] eqn:E.
  - pose proof (step_continue_size _ _ E) as Hlt.
    revert E. unfold step. rewrite R.
    destruct (split_once (buffer f)) as [[block rest]|] eqn:S.
    + rewrite blocks_of_unfold, (split_once_append _ _ _ _ S). simpl.
      destruct (_parse_sse_block block) as [[ev|]|e]; intros E; inversion E; subst.
      now rewrite (IH _ Hlt _ _ eq_refl eq_refl).
    + destruct (chunks f) as [|chunk cs] eqn:C.
      * destruct (str_empty (strip (buffer f))); [discriminate|].
        destruct (_parse_sse_block (buffer f)) as [[ev|]|e]; discriminate.
      * intros E; inversion E; subst.
        rewrite (IH _ Hlt _ _ eq_refl eq_refl).
        simpl. now rewrite append_assoc.
  - pose proof (step_yield_size _ _ _ E) as Hlt.
    revert E. unfold step. rewrite R.
    destruct (split_once (buffer f)) as [[block rest]|] eqn:S.
    + rewrite blocks_of_unfold, (split_once_append _ _ _ _ S). simpl.
      destruct (_parse_sse_block block) as [[ev|]|e]; intros E; inversion E; subst.
      now rewrite (IH _ Hlt _ _ eq_refl eq_refl).
    + destruct (chunks f) as [|chunk cs] eqn:C; [|discriminate].
      simpl. rewrite append_empty_r, blocks_of_unfold, S.
      destruct (str_empty (strip (buffer f))); [discriminate|].
      simpl.
      destruct (_parse_sse_block (buffer f)) as [[ev|]|e];
        intros E; inversion E; subst.
      now rewrite drain_frame_returned.
  - revert E. unfold step. rewrite R.
    destruct (split_once (buffer f)) as [[block rest]|] eqn:S.
    + destruct (_parse_sse_block block) as [[ev|]|e]; discriminate.
    + destruct (chunks f) as [|chunk cs] eqn:C; [|discriminate].
      simpl. rewrite append_empty_r, blocks_of_unfold, S.
      destruct (str_empty (strip (buffer f))); [reflexivity|].
      simpl.
      destruct (_parse_sse_block (buffer f)) as [[ev|]|e]; try discriminate.
      reflexivity.
  - revert E. unfold step. rewrite R.
    destruct (split_once (buffer f)) as [[block rest]|] eqn:S.
    + rewrite blocks_of_unfold, (split_once_append _ _ _ _ S). simpl.
      destruct (_parse_sse_block block) as [[ev|]|e']; intros E; inversion E; subst.
      reflexivity.
    + destruct (chunks f) as [|chunk cs] eqn:C; [|discriminate].
      simpl. rewrite append_empty_r, blocks_of_unfold, S.
      destruct (str_empty (strip (buffer f))); [discriminate|].
      simpl.
      destruct (_parse_sse_block (buffer f)) as [[ev|]|e']; intros E; inversion E; subst.
      reflexivity.
Qed.

Lemma drain_spec (self : AgentStream) :
  drain self = emit_all (blocks_of (join (_response self))) (_final_response self).
Proof.
  unfold drain. now rewrite drain_frame_spec.
Qed.

(** *** Runs of the specification *)

Lemma join_one_by_one (s : string) : join (one_by_one s) = s.
Proof. induction s as [|c s IH]; simpl; [reflexivity | now rewrite IH]. Qed.

Lemma emit_all_ended (bs : list string) (final : option AgentResponse.t) :
  ended (emit_all bs final) <> OutOfFuel.
Proof.
  revert final. induction bs as [|b bs IH]; intros final; simpl; [discriminate|].
  destruct (_parse_sse_block b) as [[ev|]|e]; simpl; auto; discriminate.
Qed.

Lemma emit_all_recorded (bs : list string) (final : option AgentResponse.t) :
  recorded (emit_all bs final) = last_done (events (emit_all bs final)) final.
Proof.
  revert final. induction bs as [|b bs IH]; intros final; simpl; [reflexivity|].
  destruct (_parse_sse_block b) as [[ev|]|e]; simpl; auto.
Qed.

Lemma emit_all_app (pre post : list string) (final : option AgentResponse.t) :
  ended (emit_all pre final) = Exhausted ->
  let r := emit_all pre final in
  let r' := emit_all post (recorded r) in
  emit_all (pre ++ post) final
  = mkRun (events r ++ events r') (ended r') (recorded r').
Proof.
  revert final. induction pre as [|b pre IH]; intros final H; simpl in *.
  - now destruct (emit_all post final).
  - destruct (_parse_sse_block b) as [[ev|]|e]; simpl in *; try discriminate.
    + rewrite (IH _ H). reflexivity.
    + now apply IH.
Qed.

(** A block cut by [split_once] is cut the same whatever follows. *)
Lemma split_once_block (s block rest : string) :
  split_once s = Some (block, rest) ->
  forall x, split_once (block ++ SEP x) = Some (block, x).
Proof.
  revert block rest.
  induction s as [|c s IH]; intros block rest H x; [discriminate|].
  destruct s as [|c' s]; [discriminate|].
  rewrite split_once_cons in H.
  destruct (Ascii.eqb c LF && Ascii.eqb c' LF) eqn:E.
  - inversion H; subst. simpl. unfold LF. reflexivity.
  - destruct (split_once (String c' s)) as [[b r]|] eqn:E'; [|discriminate].
    inversion H; subst.
    pose proof (IH _ _ eq_refl x) as IHx.
    pose proof (split_once_eq _ _ _ E') as Hs.
    destruct b as [|y b].
    + simpl in Hs. inversion Hs; subst.
      assert (Ec : Ascii.eqb c LF = false).
      { destruct (Ascii.eqb c LF); [cbv in E; discriminate | reflexivity]. }
      cbn [append]. unfold SEP.
      rewrite split_once_cons, Ec. cbn [andb].
      rewrite split_once_cons, Ascii.eqb_refl. reflexivity.
    + simpl in Hs. inversion Hs; subst.
      cbn [append] in IHx |- *.
      now rewrite split_once_cons, E, IHx.
Qed.

Lemma split_blocks_sound (s : string) (bs : list string) (rem : string) :
  split_blocks s = (bs, rem) ->
  s = reassemble bs rem
  /\ Forall (fun b => forall x, split_once (b ++ SEP x) = Some (b, x)) bs
  /\ split_once rem = None.
Proof.
  remember (String.length s) as n eqn:Hn. revert s bs rem Hn.
  induction n as [n IH] using lt_wf_ind. intros s bs rem Hn H.
  rewrite split_blocks_unfold in H.
  destruct (split_once s) as [[block rest]|] eqn:S.
  - destruct (split_blocks rest) as [bs' rem'] eqn:B. inversion H; subst.
    pose proof (split_once_length _ _ _ S) as L.
    destruct (IH (String.length rest) ltac:(lia) rest bs' rem eq_refl B)
      as (Hr & Hall & Hrem).
    repeat split; auto.
    + simpl. rewrite <- Hr. now apply split_once_eq.
    + constructor; auto. intros x. eapply split_once_block; eauto.
  - inversion H; subst. repeat split; auto.
Qed.

(** *** The Stream Decoder *)

(** C1. Whatever the chunks, iterating the decoder yields the events of
    the joined text: chunks with the same joined text give the same
    events, the same ending and the same recorded response, be it one
    chunk for the whole text or one chunk per character.  The iteration
    always ends. *)
Theorem rechunking_invariance (text : string) (cs cs' : list string)
  (final : option AgentResponse.t) :
  join cs = text -> join cs' = text ->
  drain (mkStream cs final) = drain (mkStream cs' final)
  /\ drain (mkStream cs final) = drain (mkStream [text] final)
  /\ drain (mkStream cs final) = drain (mkStream (one_by_one text) final)
  /\ ended (drain (mkStream cs final)) <> OutOfFuel.
Proof.
  intros H H'. rewrite !drain_spec. simpl.
  rewrite H, H', join_one_by_one, append_empty_r.
  repeat split. apply emit_all_ended.
Qed.

(** C6. The decoder hands the Block Parser, in order, the blocks cut at
    each first pair of line feeds and then the remainder, unless the
    remainder is empty or white space only; it emits the event of every
    block that has one and stops at a block on which the parser raises.
    The cut blocks and the remainder, put back together with the
    separators, are the text; no block could have been cut earlier and
    the remainder holds no separator. *)
Theorem decoder_refines_blocks (cs : list string) (final : option AgentResponse.t)
  (bs : list string) (rem : string) :
  split_blocks (join cs) = (bs, rem) ->
  join cs = reassemble bs rem
  /\ Forall (fun b => forall x, split_once (b ++ SEP x) = Some (b, x)) bs
  /\ (forall b rest, split_once (join cs) = Some (b, rest) ->
       forall b' rest', join cs = b' ++ SEP rest' ->
       String.length b <= String.length b')
  /\ split_once rem = None
  /\ (strip rem = "" -> drain (mkStream cs final) = emit_all bs final)
  /\ (strip rem <> "" ->
       drain (mkStream cs final) = emit_all (bs ++ [rem])%list final).
Proof.
  intros H.
  destruct (split_blocks_sound _ _ _ H) as (Hr & Hall & Hrem).
  split; [exact Hr|]. split; [exact Hall|].
  split; [intros b rest S; exact (split_once_first _ _ _ S)|].
  split; [exact Hrem|].
  rewrite drain_spec. unfold blocks_of. simpl. rewrite H. split; intros E.
  - apply str_empty_true in E. rewrite E. now rewrite app_nil_r.
  - apply str_empty_false in E. now rewrite E.
Qed.

(** C10. Iteration goes on after a done event: when the blocks of the
    text are [pre], a block decoding to a [DoneEvent] and [post], and no
    block of [pre] raised, the events are those of [pre], the done event,
    then those of [post], decoded with the done event's response
    recorded; the ending is that of [post].  In every run the response
    recorded at the end is the one of the last [DoneEvent] emitted, or
    what was recorded before when there was none. *)
Theorem iteration_continues_after_done (cs : list string)
  (final : option AgentResponse.t) :
  let r := drain (mkStream cs final) in
  recorded r = last_done (events r) final
  /\ forall pre block post resp u,
       blocks_of (join cs) = (pre ++ block :: post)%list ->
       ended (emit_all pre final) = Exhausted ->
       _parse_sse_block block = Ok (Some (DoneEvent resp u)) ->
       let after := emit_all post (Some resp) in
       events r = (events (emit_all pre final) ++ DoneEvent resp u :: events after)%list
       /\ ended r = ended after
       /\ recorded r = recorded after
       /\ recorded after = last_done (events after) (Some resp).
Proof.
  cbv zeta. rewrite drain_spec. simpl. split; [apply emit_all_recorded|].
  intros pre block post resp u B E P.
  rewrite B, (emit_all_app _ _ _ E). simpl. rewrite P. simpl.
  repeat split. apply emit_all_recorded.
Qed.

(** *** [final_response] *)

Lemma step_frame_ok (f : frame) :
  frame_ok f ->
  match step f with
  | Continue f' | Yield _ f' | Return f' => frame_ok f'
  | Throw _ _ => True
  end.
Proof.
  intros H. unfold step. destruct (returned f) eqn:R; [exact H|].
  destruct (split_once (buffer f)) as [[block rest]|];
    [|destruct (chunks f) as [|chunk cs];
      [destruct (str_empty (strip (buffer f)))|]];
    repeat match goal with
    | |- context [_parse_sse_block ?b] =>
        destruct (_parse_sse_block b) as [[ev|]|e]
    end;
    try exact I; unfold frame_ok; simpl; intros; (discriminate || reflexivity).
Qed.

Lemma step_return (f f' : frame) :
  step f = Return f' -> returned f' = true.
Proof.
  unfold step. destruct (returned f) eqn:R; [now intros [= <-]|].
  destruct (split_once (buffer f)) as [[block rest]|].
  - destruct (_parse_sse_block block) as [[ev|]|e]; discriminate.
  - destruct (chunks f) as [|chunk cs]; [|discriminate].
    destruct (str_empty (strip (buffer f))); [now intros [= <-]|].
    destruct (_parse_sse_block (buffer f)) as [[ev|]|e]; try discriminate.
    now intros [= <-].
Qed.

Lemma next_fuel_frame_ok (n : nat) (f : frame) (final : option AgentResponse.t) :
  frame_ok f ->
  match next_fuel n f final with
  | NYield _ f' _ => frame_ok f'
  | NStop f' => chunks f' = [] /\ returned f' = true
  | _ => True
  end.
Proof.
  revert f. induction n as [|n IH]; intros f H; simpl; [exact I|].
  pose proof (step_frame_ok f H) as K.
  destruct (step f) as [f0|ev0 f0|f0|e f0] eqn:E.
  - now apply IH.
  - exact K.
  - pose proof (step_return _ _ E) as R. split; auto.
  - exact I.
Qed.

Lemma first_done_split (evs : list StreamEvent) :
  forallb not_done evs = true
  \/ exists pre resp u post,
       evs = (pre ++ DoneEvent resp u :: post)%list /\ forallb not_done pre = true.
Proof.
  induction evs as [|ev evs IH]; [now left|].
  destruct ev as [c|t|t|resp u|c m];
    try (destruct IH as [IH|(pre & resp & u & post & -> & IH)];
         [now left | right; eexists (_ :: pre), resp, u, post; now split]).
  right. now exists [], resp, u, evs.
Qed.

(** The method returns at the first done event of the run. *)
Lemma final_response_fuel_done (n : nat) (f : frame) (final : option AgentResponse.t)
  (pre post : list StreamEvent) (resp : AgentResponse.t) (u : Usage.t) :
  events (drain_fuel n f final) = (pre ++ DoneEvent resp u :: post)%list ->
  forallb not_done pre = true ->
  value (final_response_fuel n f final) = Some (Ok resp)
  /\ left_final (final_response_fuel n f final) = Some resp.
Proof.
  revert f final pre.
  induction n as [|n IH]; intros f final pre H N; simpl in *.
  - now destruct pre.
  - destruct (next f final) as [ev f' final'| | |] eqn:E;
      try (now destruct pre).
    destruct (next_yield_size _ _ _ _ _ E) as [_ ->]. simpl in H.
    destruct pre as [|x pre]; simpl in H; inversion H; subst.
    + now split.
    + simpl in N. apply andb_true_iff in N as [Nx N].
      destruct x; try discriminate; eapply IH; eauto.
Qed.

(** Without a done event it ends as the run ends. *)
Lemma final_response_fuel_no_done (n : nat) (f : frame)
  (final : option AgentResponse.t) :
  frame_ok f ->
  forallb not_done (events (drain_fuel n f final)) = true ->
  let o := final_response_fuel n f final in
  match ended (drain_fuel n f final) with
  | Exhausted =>
      value o = Some (match final with
                      | Some response => Ok response
                      | None => Raise no_done
                      end)
      /\ chunks (left_frame o) = [] /\ returned (left_frame o) = true
      /\ left_final o = final
  | Raised e => value o = Some (Raise e)
  | OutOfFuel => value o = None
  end.
Proof.
  revert f final.
  induction n as [|n IH]; intros f final K N; simpl in *; [reflexivity|].
  pose proof (next_fuel_frame_ok (S (size f)) f final K) as F.
  fold (next f final) in F.
  destruct (next f final) as [ev f' final'| | |] eqn:E; simpl in *;
    try reflexivity.
  - destruct (next_yield_size _ _ _ _ _ E) as [_ ->].
    apply andb_true_iff in N as [Nx N].
    destruct ev; try discriminate; simpl in *; now apply IH.
  - destruct final; simpl; tauto.
Qed.

(** C2. [final_response] iterates the stream itself and always comes
    back.  It returns the response of the first [DoneEvent] of the run.
    When the run ends normally with no [DoneEvent] and none was recorded
    on the stream before, it raises the [RuntimeError] of a stream
    without done event, and by then the generator has returned with no
    chunk left; a response recorded earlier is returned instead.  An
    exception of the Block Parser met before any [DoneEvent] is passed
    on. *)
Theorem final_response_first_done (self : AgentStream) :
  let o := final_response self in
  let r := drain self in
  value o <> None
  /\ (forall pre resp u post,
        events r = (pre ++ DoneEvent resp u :: post)%list ->
        forallb not_done pre = true ->
        value o = Some (Ok resp))
  /\ (forallb not_done (events r) = true -> ended r = Exhausted ->
       _final_response self = None ->
       value o = Some (Raise no_done)
       /\ chunks (left_frame o) = [] /\ returned (left_frame o) = true)
  /\ (forallb not_done (events r) = true -> ended r = Exhausted ->
       forall earlier, _final_response self = Some earlier ->
       value o = Some (Ok earlier))
  /\ (forallb not_done (events r) = true ->
       forall e, ended r = Raised e -> value o = Some (Raise e)).
Proof.
  cbv zeta.
  assert (K : frame_ok (__iter__ self)) by discriminate.
  pose proof (final_response_fuel_no_done
                (S (size (__iter__ self))) _ (_final_response self) K) as N.
  cbv zeta in N.
  fold (final_response self) in N. fold (drain_frame (__iter__ self) (_final_response self)) in N.
  fold (drain self) in N.
  assert (D : forall pre resp u post,
             events (drain self) = (pre ++ DoneEvent resp u :: post)%list ->
             forallb not_done pre = true ->
             value (final_response self) = Some (Ok resp)).
  { intros pre resp u post H Hp.
    eapply final_response_fuel_done; eauto. }
  split; [|split; [exact D|split; [|split]]].
  - destruct (first_done_split (events (drain self)))
      as [H|(pre & resp & u & post & H & Hp)].
    + specialize (N H).
      pose proof (emit_all_ended (blocks_of (join (_response self)))
                    (_final_response self)) as T.
      rewrite <- drain_spec in T.
      destruct (ended (drain self)); try congruence.
      destruct N as [-> _]. discriminate.
    + rewrite (D _ _ _ _ H Hp). discriminate.
  - intros H He Hf. specialize (N H). rewrite He, Hf in N. tauto.
  - intros H He earlier Hf. specialize (N H). rewrite He, Hf in N. tauto.
  - intros H e He. specialize (N H). now rewrite He in N.
Qed.

(** *** The Block Parser *)

Lemma dispatch_unknown (tag : string) (parsed : pyval) :
  ~ In tag known_tags -> dispatch tag parsed = Ok None.
Proof.
  intros H. unfold dispatch.
  repeat match goal with
  | |- context [String.eqb tag ?k] =>
      destruct (String.eqb_spec tag k) as [->|_];
      [exfalso; apply H; simpl; tauto|]
  end.
  reflexivity.
Qed.

Lemma dispatch_not_dict (tag : string) (parsed : pyval) :
  In tag known_tags -> is_dict parsed = false ->
  dispatch tag parsed = Raise AttributeError.
Proof.
  intros H D.
  assert (G : forall k v, Py.get parsed k v = Raise AttributeError)
    by (intros; destruct parsed; try reflexivity; discriminate).
  simpl in H.
  destruct H as [<-|[<-|[<-|[<-|[<-|[]]]]]]; unfold dispatch; simpl;
    now rewrite G.
Qed.

(** X18. A block whose event tag is empty, whose data is empty, on
    whose data [json.loads] raises [JSONDecodeError], or whose tag is
    not a known one while [json.loads] returns a value, gives no event
    and no exception.  When it is the first block of the text the run is
    the run on what follows it; when it is the whole unterminated text
    the run is empty and ends normally. *)
Theorem undecodable_block_dropped (block tag data : string) :
  scan_block block = (tag, data) ->
  tag = "" \/ data = "" \/ json_loads data = DecodeError
  \/ (~ In tag known_tags /\ exists v, json_loads data = Loaded v) ->
  _parse_sse_block block = Ok None
  /\ (forall cs rest final,
       split_once (join cs) = Some (block, rest) ->
       drain (mkStream cs final) = drain (mkStream [rest] final))
  /\ (forall cs final,
       join cs = block -> split_once block = None ->
       drain (mkStream cs final) = mkRun [] Exhausted final).
Proof.
  intros S H.
  assert (P : _parse_sse_block block = Ok None).
  { unfold _parse_sse_block. rewrite S.
    destruct (str_empty tag) eqn:Et; [reflexivity|].
    destruct (str_empty data) eqn:Ed; [reflexivity|]. simpl.
    apply str_empty_false in Et, Ed.
    destruct H as [H|[H|[H|[H [v J]]]]]; try contradiction.
    - now rewrite H.
    - rewrite J. now apply dispatch_unknown. }
  split; [exact P|]. split.
  - intros cs rest final E. rewrite !drain_spec. simpl.
    rewrite append_empty_r, (blocks_of_unfold (join cs)), E. simpl.
    now rewrite P.
  - intros cs final E N. rewrite drain_spec. simpl.
    rewrite E, blocks_of_unfold, N.
    destruct (str_empty (strip block)); simpl; [reflexivity | now rewrite P].
Qed.

(** C5 (the code breaks it).  [json.loads] is called before the tag is
    looked at, and only its [JSONDecodeError] is caught: on a block with
    a tag and data on which [json.loads] raises another exception, the
    Block Parser raises that exception, whatever the tag, and a run
    whose first block it is ends with it before any event, the blocks
    after it undecoded. *)
Theorem json_exception_escapes (block tag data : string) (e : builtin_error) :
  scan_block block = (tag, data) -> tag <> "" -> data <> "" ->
  json_loads data = Escapes e ->
  _parse_sse_block block = Raise (Builtin e)
  /\ forall cs rest final,
       split_once (join cs) = Some (block, rest) ->
       drain (mkStream cs final) = mkRun [] (Raised (Builtin e)) final.
Proof.
  intros S T D J.
  assert (P : _parse_sse_block block = Raise (Builtin e)).
  { unfold _parse_sse_block. rewrite S.
    apply str_empty_false in T, D. now rewrite T, D, J. }
  split; [exact P|].
  intros cs rest final E. rewrite drain_spec. simpl.
  rewrite blocks_of_unfold, E. simpl. now rewrite P.
Qed.

(** C9. A block with a known tag whose data is JSON but not an object
    makes the Block Parser raise [AttributeError]; iterating a stream
    whose first block it is ends with that exception before any event. *)
Theorem non_object_data_raises (block tag data : string) (parsed : pyval) :
  scan_block block = (tag, data) ->
  In tag known_tags -> data <> "" ->
  json_loads data = Loaded parsed -> is_dict parsed = false ->
  _parse_sse_block block = Raise AttributeError
  /\ forall cs rest final,
       split_once (join cs) = Some (block, rest) ->
       drain (mkStream cs final) = mkRun [] (Raised AttributeError) final.
Proof.
  intros S K D J N.
  assert (P : _parse_sse_block block = Raise AttributeError).
  { unfold _parse_sse_block. rewrite S.
    assert (Et : str_empty tag = false).
    { apply str_empty_false. intros ->. simpl in K.
      repeat (destruct K as [K|K]; [discriminate|]). exact K. }
    apply str_empty_false in D. rewrite Et, D, J. simpl.
    now apply dispatch_not_dict. }
  split; [exact P|].
  intros cs rest final E. rewrite drain_spec. simpl.
  rewrite blocks_of_unfold, E. simpl. now rewrite P.
Qed.

Lemma bind_ok {A B : Type} (r : result A) (k : A -> result B) (b : B) :
  Py.bind r k = Ok b -> exists a, r = Ok a /\ k a = Ok b.
Proof. destruct r as [a|e]; simpl; [eauto | discriminate]. Qed.

Lemma dispatch_done (parsed : pyval) :
  dispatch "done" parsed =
  (r <- Py.get parsed "response" (PDict []) ;;
   resp <- AgentResponse.from_dict r ;;
   u0 <- Py.get parsed "usage" PNone ;;
   usage_data <-
     (if truthy u0 then Ok u0
      else r0 <- Py.get parsed "response" PNone ;;
           Py.get (py_or r0 (PDict [])) "usage" (PDict [])) ;;
   usage <- Usage.from_dict usage_data ;;
   Ok (Some (DoneEvent resp usage))).
Proof. reflexivity. Qed.

Lemma from_dict_is_dict (v : pyval) (r : AgentResponse.t) :
  AgentResponse.from_dict v = Ok r -> is_dict v = true.
Proof. destruct v; try discriminate. reflexivity. Qed.

(** C3 (amended). When a block tagged [done] with object data yields an
    event, the event is a [DoneEvent]; its response is decoded from the
    [response] entry (an empty object when absent, an object when
    present); its usage is decoded from the top-level [usage] entry when
    that entry is present and truthy, and otherwise from the [usage]
    entry of [response] (an empty object when absent), so that with no
    top-level [usage] the usage is the decoding of [response.usage]. *)
Theorem done_event_fields (block data : string) (d : dict) (ev : StreamEvent) :
  scan_block block = ("done", data) -> data <> "" ->
  json_loads data = Loaded (PDict d) ->
  _parse_sse_block block = Ok (Some ev) ->
  exists resp u,
    ev = DoneEvent resp u
    /\ AgentResponse.from_dict (dict_get d "response" (PDict [])) = Ok resp
    /\ (forall v, dict_lookup d "response" = Some v -> is_dict v = true)
    /\ (forall v, dict_lookup d "usage" = Some v -> truthy v = true ->
         Usage.from_dict v = Ok u)
    /\ (truthy (dict_get d "usage" PNone) = false ->
         (forall rd, dict_lookup d "response" = Some (PDict rd) ->
                     Usage.from_dict (dict_get rd "usage" (PDict [])) = Ok u)
         /\ (dict_lookup d "response" = None -> u = Usage.default)).
Proof.
  intros S D J P. unfold _parse_sse_block in P. rewrite S in P.
  apply str_empty_false in D. rewrite D, J in P. simpl orb in P. cbv iota in P.
  rewrite dispatch_done in P. cbn [Py.get Py.bind] in P.
  apply bind_ok in P as (resp & R & P).
  apply bind_ok in P as (usage_data & U & P).
  apply bind_ok in P as (u & F & P).
  inversion P; subst. exists resp, u.
  split; [reflexivity|]. split; [exact R|]. split; [|split].
  - intros v L. unfold dict_get in R. rewrite L in R.
    eapply from_dict_is_dict; eauto.
  - intros v L T. unfold dict_get in U. rewrite L, T in U.
    inversion U; subst. exact F.
  - intros T. rewrite T in U. split.
    + intros rd L. unfold dict_get in U at 1. rewrite L in U.
      cbn [Py.bind] in U. unfold py_or in U.
      destruct rd as [|kv rd]; simpl in U; inversion U; subst; exact F.
    + intros L. unfold dict_get in U at 1. rewrite L in U.
      simpl in U. inversion U; subst. simpl in F. now inversion F.
Qed.

(** *** The response types *)

(** C4 (amended). When [AgentResponse.from_dict] returns on an object,
    the id is the [id] entry when that entry is present and truthy;
    otherwise it is the [request_id] entry when present and the empty
    string when not.  [run] on a response below status 400 whose body
    parses to that object returns the same response. *)
Theorem from_dict_id_fallback (d : dict) (r : AgentResponse.t) :
  AgentResponse.from_dict (PDict d) = Ok r ->
  (forall v, dict_lookup d "id" = Some v -> truthy v = true ->
             AgentResponse.id r = v)
  /\ (truthy (dict_get d "id" PNone) = false ->
       (forall w, dict_lookup d "request_id" = Some w -> AgentResponse.id r = w)
       /\ (dict_lookup d "request_id" = None -> AgentResponse.id r = PStr ""))
  /\ (forall send message capabilities files,
        let response :=
          send "/v1/agent" (_build_body message capabilities files false) in
        (status_code response < 400)%Z ->
        json_loads (join (body_chunks response)) = Loaded (PDict d) ->
        run_agent send message capabilities files = Ok r).
Proof.
  intros H. pose proof H as H0.
  unfold AgentResponse.from_dict in H. cbn [Py.get Py.bind] in H.
  apply bind_ok in H as (id & I & H).
  repeat (apply bind_ok in H as (? & _ & H)).
  inversion H; subst; clear H. cbn [AgentResponse.id].
  split; [|split].
  - intros v L T. unfold dict_get in I. rewrite L, T in I. now inversion I.
  - intros T. rewrite T in I. inversion I; subst. unfold dict_get.
    split; [intros w L | intros L]; now rewrite L.
  - intros send message capabilities files S J.
    unfold run_agent, _request.
    apply Z.leb_gt in S. rewrite S. cbn [Py.bind]. unfold json.
    now rewrite J.
Qed.

(** *** The client *)

(** C7 (amended). For a response of status 400 or more [_request]
    raises what [_handle_error] builds; that is always a [StewrdError]
    with the status of the response.  When the body is JSON whose error
    object (top level, or under [error]) is an object, the code, the
    message and the docs link are its [code], [message] and [docs]
    entries, defaulting to ["unknown_error"], to the fallback message
    and to [None]; the fallback message is the reason phrase, or
    ["Unknown error"] when the reason phrase is empty.  When the body is
    not JSON or the error object is not an object, the error carries the
    three defaults. *)
Theorem handle_error_defaults (response : Response) :
  let status := status_code response in
  let text := join (body_chunks response) in
  let fallback :=
    PStr (if str_empty (reason_phrase response) then "Unknown error"
          else reason_phrase response) in
  (forall send path body,
     send path body = response -> (400 <= status)%Z ->
     _request send path body = Raise (_handle_error response))
  /\ (exists code message docs,
        _handle_error response = StewrdError status code message docs)
  /\ (forall data e,
        json_loads text = Loaded data -> error_object data = PDict e ->
        _handle_error response =
        StewrdError status (dict_get e "code" (PStr "unknown_error"))
          (dict_get e "message" fallback) (dict_get e "docs" PNone))
  /\ (forall data,
        json_loads text = Loaded data -> is_dict (error_object data) = false ->
        _handle_error response =
        StewrdError status (PStr "unknown_error") fallback PNone)
  /\ (json_loads text = DecodeError ->
       _handle_error response =
       StewrdError status (PStr "unknown_error") fallback PNone)
  /\ (forall x, json_loads text = Escapes x ->
       _handle_error response =
       StewrdError status (PStr "unknown_error") fallback PNone).
Proof.
  cbv zeta.
  assert (F : py_or (PStr (reason_phrase response)) (PStr "Unknown error")
              = PStr (if str_empty (reason_phrase response) then "Unknown error"
                      else reason_phrase response)).
  { unfold py_or, str_empty. simpl.
    now destruct (String.eqb (reason_phrase response) ""). }
  split; [|split; [|split; [|split; [|split]]]].
  - intros send path body <- S. unfold _request.
    apply Z.leb_le in S. now rewrite S.
  - unfold _handle_error.
    match goal with
    | |- context [match ?a with Ok _ => _ | Raise _ => _ end] => destruct a as [[[c m] x]|]
    end; eauto.
  - intros data e J E. unfold _handle_error, json. rewrite J, F.
    cbn [Py.bind].
    destruct data as [| | | | | |d]; simpl in E; try discriminate E;
      subst; cbn [Py.get Py.bind]; try reflexivity.
    rewrite E. reflexivity.
  - intros data J E. unfold _handle_error, json. rewrite J, F.
    cbn [Py.bind].
    destruct data as [| | | | | |d]; simpl in E; try discriminate E;
      cbn [Py.get Py.bind]; try reflexivity.
    destruct (dict_get d "error" (PDict d)); try discriminate E; reflexivity.
  - intros J. unfold _handle_error, json. now rewrite J, F.
  - intros x J. unfold _handle_error, json. now rewrite J, F.
Qed.

Lemma dict_lookup_in (d : dict) (k : string) (v : pyval) :
  dict_lookup d k = Some v -> In k (dict_keys d).
Proof.
  induction d as [|[k' v'] d IH]; simpl; [discriminate|].
  destruct (String.eqb_spec k' k); auto.
Qed.

(** C8. The body always holds [message] and [stream]; [capabilities]
    and [files] are there exactly when the caller passed them, as the
    list of the given names and the list of the files' fields, in order,
    so that an empty sequence gives an empty list and not an absent key;
    there is no other key.  [run] sends the body with [stream] false and
    [stream] the one with [stream] true. *)
Theorem build_body_keys (message : string) (capabilities : option (list string))
  (files : option (list InputFile.t)) (stream : bool) :
  let body := _build_body message capabilities files stream in
  dict_lookup body "message" = Some (PStr message)
  /\ dict_lookup body "stream" = Some (PBool stream)
  /\ dict_lookup body "capabilities"
      = option_map (fun cs => PList (map PStr cs)) capabilities
  /\ dict_lookup body "files"
      = option_map
          (fun fs =>
             PList (map (fun f => PDict [("name", PStr (InputFile.name f));
                                         ("content", PStr (InputFile.content f))])
                        fs))
          files
  /\ (forall k v, dict_lookup body k = Some v ->
                  In k ["message"; "stream"; "capabilities"; "files"])
  /\ (forall send,
        run_agent send message capabilities files =
        (resp <- _request send "/v1/agent"
                   (_build_body message capabilities files false) ;;
         data <- json resp ;;
         AgentResponse.from_dict data))
  /\ (forall send,
        stream_agent send message capabilities files =
        (resp <- _request_stream send "/v1/agent"
                   (_build_body message capabilities files true) ;;
         Ok (mkHandle resp None))).
Proof.
  cbv zeta.
  split; [|split; [|split; [|split; [|split; [|split]]]]];
    try (destruct capabilities, files; reflexivity).
  intros k v L. apply dict_lookup_in in L. revert L.
  destruct capabilities, files; simpl; tauto.
Qed.

Lemma dict_lookup_set_other (d : dict) (k k' : string) (v : pyval) :
  k <> k' -> dict_lookup (dict_set d k v) k' = dict_lookup d k'.
Proof.
  intros N. induction d as [|[k0 v0] d IH]; simpl.
  - destruct (String.eqb_spec k k'); [contradiction | reflexivity].
  - destruct (String.eqb_spec k0 k) as [->|]; simpl.
    + destruct (String.eqb_spec k k'); [contradiction | reflexivity].
    + now rewrite IH.
Qed.

Lemma dict_lookup_set_same (d : dict) (k : string) (v : pyval) :
  dict_lookup (dict_set d k v) k = Some v.
Proof.
  induction d as [|[k0 v0] d IH]; simpl.
  - now rewrite String.eqb_refl.
  - destruct (String.eqb_spec k0 k) as [->|N]; simpl.
    + now rewrite String.eqb_refl.
    + destruct (String.eqb_spec k0 k); [contradiction | exact IH].
Qed.

(** *** The decoders of types.py *)

Lemma from_dict_unfold (d : dict) :
  AgentResponse.from_dict (PDict d) =
  (items <- Py.iter (dict_get d "files" (PList [])) ;;
   files <- Py.mapM ResponseFile.from_dict items ;;
   usage <- Usage.from_dict (dict_get d "usage" (PDict [])) ;;
   meta <- Meta.from_dict (dict_get d "meta" (PDict [])) ;;
   Ok (AgentResponse.mk
         (py_or (dict_get d "id" PNone) (dict_get d "request_id" (PStr "")))
         (dict_get d "object" (PStr "agent.response"))
         (dict_get d "message" (PStr ""))
         (dict_get d "capabilities_used" (PList []))
         files usage meta)).
Proof.
  unfold AgentResponse.from_dict, py_or. cbn [Py.get Py.bind].
  now destruct (truthy (dict_get d "id" PNone)).
Qed.

Lemma mapM_files_ok (items : list pyval) :
  forallb is_dict items = true ->
  exists fs, Py.mapM ResponseFile.from_dict items = Ok fs
             /\ Forall2 decodes_file items fs.
Proof.
  induction items as [|item items IH]; cbn [forallb Py.mapM]; intros H.
  - exists []. split; [reflexivity | constructor].
  - apply andb_true_iff in H as [Hd H].
    destruct (IH H) as (fs & E & F).
    destruct item as [| | | | | |fd]; try discriminate.
    rewrite E. unfold ResponseFile.from_dict. cbn [Py.get Py.bind].
    eexists. split; [reflexivity|].
    constructor; [|exact F]. now exists fd.
Qed.

Lemma mapM_files_raise (items : list pyval) :
  forallb is_dict items = false ->
  Py.mapM ResponseFile.from_dict items = Raise AttributeError.
Proof.
  induction items as [|item items IH]; cbn [forallb Py.mapM]; intros H;
    [discriminate|].
  destruct item as [| | | | | |fd]; try reflexivity.
  cbn [is_dict andb] in H. rewrite (IH H).
  unfold ResponseFile.from_dict. cbn [Py.get Py.bind]. reflexivity.
Qed.

Lemma simple_decoders_dict (v : pyval) :
  match v with
  | PDict d =>
      Usage.from_dict v
      = Ok (Usage.mk (dict_get d "requests_used" (PInt 0))
                     (dict_get d "requests_limit" (PInt 0))
                     (dict_get d "tokens_used" (PInt 0)))
      /\ Meta.from_dict v
         = Ok (Meta.mk (dict_get d "duration_ms" (PInt 0))
                       (dict_get d "project_id" (PStr ""))
                       (dict_get d "plan" (PStr "")))
  | _ => Usage.from_dict v = Raise AttributeError
         /\ Meta.from_dict v = Raise AttributeError
  end.
Proof. destruct v; split; reflexivity. Qed.

(** X1. [AgentResponse.from_dict] returns on an object exactly when its
    [files] entry (a list, when absent the empty list) can be iterated
    and holds objects only, and its [usage] and [meta] entries (when
    absent empty objects) are objects.  A [files] entry that cannot be
    iterated raises [TypeError]; every other failure, and every input
    that is not an object, raises [AttributeError]. *)
Theorem from_dict_returns_iff (d : dict) :
  let fs := dict_get d "files" (PList []) in
  let u := dict_get d "usage" (PDict []) in
  let m := dict_get d "meta" (PDict []) in
  ((exists r, AgentResponse.from_dict (PDict d) = Ok r) <->
   (exists items, Py.iter fs = Ok items /\ forallb is_dict items = true)
   /\ is_dict u = true /\ is_dict m = true)
  /\ (forall e, Py.iter fs = Raise e ->
       AgentResponse.from_dict (PDict d) = Raise TypeError)
  /\ (forall items e, Py.iter fs = Ok items ->
       AgentResponse.from_dict (PDict d) = Raise e -> e = AttributeError)
  /\ (forall v, is_dict v = false ->
       AgentResponse.from_dict v = Raise AttributeError).
Proof.
  cbv zeta. rewrite from_dict_unfold.
  pose proof (simple_decoders_dict (dict_get d "usage" (PDict []))) as U.
  pose proof (simple_decoders_dict (dict_get d "meta" (PDict []))) as M.
  split; [split|split; [|split]].
  - intros [r H].
    destruct (Py.iter (dict_get d "files" (PList []))) as [items|e] eqn:I;
      [|discriminate]. cbn [Py.bind] in H.
    destruct (forallb is_dict items) eqn:A;
      [|now rewrite (mapM_files_raise _ A) in H].
    destruct (mapM_files_ok _ A) as (fl & E & _). rewrite E in H.
    cbn [Py.bind] in H.
    destruct (dict_get d "usage" (PDict [])); destruct U as [U _];
      rewrite U in H; try discriminate. cbn [Py.bind] in H.
    destruct (dict_get d "meta" (PDict [])); destruct M as [_ M];
      rewrite M in H; try discriminate.
    repeat split; eauto.
  - intros ((items & I & A) & Hu & Hm). rewrite I. cbn [Py.bind].
    destruct (mapM_files_ok _ A) as (fl & E & _). rewrite E. cbn [Py.bind].
    destruct (dict_get d "usage" (PDict [])); try discriminate.
    destruct (dict_get d "meta" (PDict [])); try discriminate.
    destruct U as [-> _], M as [_ ->]. cbn [Py.bind]. eauto.
  - intros e I. rewrite I. cbn [Py.bind].
    destruct (dict_get d "files" (PList [])); simpl in I;
      inversion I; reflexivity.
  - intros items e I H. rewrite I in H. cbn [Py.bind] in H.
    destruct (forallb is_dict items) eqn:A;
      [|rewrite (mapM_files_raise _ A) in H; now inversion H].
    destruct (mapM_files_ok _ A) as (fl & E & _). rewrite E in H.
    cbn [Py.bind] in H.
    destruct (dict_get d "usage" (PDict [])); destruct U as [U U'];
      rewrite U in H; cbn [Py.bind] in H; try (now inversion H).
    destruct (dict_get d "meta" (PDict [])); destruct M as [M' M];
      rewrite M in H; cbn [Py.bind] in H; now inversion H.
  - intros v H. destruct v; try reflexivity. discriminate.
Qed.

(** X2. When [AgentResponse.from_dict] returns on an object, the files
    of the response are the items of the [files] list decoded one by
    one, in order (none when the entry is absent): name, content and url
    of an item, with the empty string and [None] twice for what an item
    lacks.  The other fields are the entries of the object or their
    defaults, and usage and meta are the decodings of theirs. *)
Theorem from_dict_fields (d : dict) (r : AgentResponse.t) :
  AgentResponse.from_dict (PDict d) = Ok r ->
  (forall l, dict_lookup d "files" = Some (PList l) ->
             Forall2 decodes_file l (AgentResponse.files r))
  /\ (dict_lookup d "files" = None -> AgentResponse.files r = [])
  /\ AgentResponse.object r = dict_get d "object" (PStr "agent.response")
  /\ AgentResponse.message r = dict_get d "message" (PStr "")
  /\ AgentResponse.capabilities_used r = dict_get d "capabilities_used" (PList [])
  /\ Usage.from_dict (dict_get d "usage" (PDict [])) = Ok (AgentResponse.usage r)
  /\ Meta.from_dict (dict_get d "meta" (PDict [])) = Ok (AgentResponse.meta r).
Proof.
  rewrite from_dict_unfold. intros H.
  apply bind_ok in H as (items & I & H).
  apply bind_ok in H as (fl & F & H).
  apply bind_ok in H as (u & U & H).
  apply bind_ok in H as (m & M & H).
  inversion H; subst; clear H. cbn.
  assert (A : forallb is_dict items = true).
  { destruct (forallb is_dict items) eqn:A; [reflexivity|].
    now rewrite (mapM_files_raise _ A) in F. }
  destruct (mapM_files_ok _ A) as (fl' & E & R).
  rewrite E in F. inversion F; subst.
  repeat split; auto.
  - intros l L. unfold dict_get in I. rewrite L in I. simpl in I.
    now inversion I; subst.
  - intros L. unfold dict_get in I. rewrite L in I. simpl in I.
    inversion I; subst. now inversion R.
Qed.

(** X3. The decoders look at their own keys only: objects that hold the
    same under those keys decode alike, so setting any other key changes
    nothing. *)
Theorem unknown_fields_ignored (d d' : dict) :
  (agree file_keys d d' ->
   ResponseFile.from_dict (PDict d) = ResponseFile.from_dict (PDict d'))
  /\ (agree usage_keys d d' ->
       Usage.from_dict (PDict d) = Usage.from_dict (PDict d'))
  /\ (agree meta_keys d d' ->
       Meta.from_dict (PDict d) = Meta.from_dict (PDict d'))
  /\ (agree response_keys d d' ->
       AgentResponse.from_dict (PDict d) = AgentResponse.from_dict (PDict d'))
  /\ (forall k v, ~ In k response_keys ->
       AgentResponse.from_dict (PDict (dict_set d k v))
       = AgentResponse.from_dict (PDict d)).
Proof using.
  assert (G : forall keys a b, agree keys a b ->
              forall k x, In k keys -> dict_get a k x = dict_get b k x).
  { intros keys a b H k x K. unfold dict_get. now rewrite (H k K). }
  assert (R : agree response_keys d d' ->
              AgentResponse.from_dict (PDict d)
              = AgentResponse.from_dict (PDict d')).
  { intros H. rewrite !from_dict_unfold.
    repeat match goal with
    | |- context [dict_get d ?k ?x] =>
        rewrite (G _ _ _ H k x) by (simpl; repeat (first [left; reflexivity | right]))
    end. reflexivity. }
  split; [|split; [|split; [|split]]].
  - intros H. unfold ResponseFile.from_dict. cbn [Py.get Py.bind].
    repeat match goal with
    | |- context [dict_get d ?k ?x] =>
        rewrite (G _ _ _ H k x) by (simpl; repeat (first [left; reflexivity | right]))
    end. reflexivity.
  - intros H. unfold Usage.from_dict. cbn [Py.get Py.bind].
    repeat match goal with
    | |- context [dict_get d ?k ?x] =>
        rewrite (G _ _ _ H k x) by (simpl; repeat (first [left; reflexivity | right]))
    end. reflexivity.
  - intros H. unfold Meta.from_dict. cbn [Py.get Py.bind].
    repeat match goal with
    | |- context [dict_get d ?k ?x] =>
        rewrite (G _ _ _ H k x) by (simpl; repeat (first [left; reflexivity | right]))
    end. reflexivity.
  - exact R.
  - intros k v K.
    assert (A : agree response_keys (dict_set d k v) d).
    { intros k' K'. apply dict_lookup_set_other. intros ->. now apply K. }
    clear R. revert A. generalize (dict_set d k v). intros d0 A.
    rewrite !from_dict_unfold.
    repeat match goal with
    | |- context [dict_get d0 ?k ?x] =>
        rewrite (G _ _ _ A k x) by (simpl; repeat (first [left; reflexivity | right]))
    end. reflexivity.
Qed.

(** *** The line scan of a block *)

Lemma split_lines_not_nil (s : string) : split_lines s <> [].
Proof.
  induction s as [|c s IH]; simpl; [discriminate|].
  destruct (Ascii.eqb c LF); [discriminate|].
  destruct (split_lines s); [contradiction | discriminate].
Qed.

Lemma split_lines_append (a b : string) :
  split_lines (a ++ String LF b) = (split_lines a ++ split_lines b)%list.
Proof.
  induction a as [|c a IH]; cbn [append split_lines].
  - now rewrite Ascii.eqb_refl.
  - rewrite IH. destruct (Ascii.eqb c LF); [reflexivity|].
    pose proof (split_lines_not_nil a) as N.
    destruct (split_lines a); [contradiction | reflexivity].
Qed.

Lemma split_lines_single (s : string) :
  has_lf s = false -> split_lines s = [s].
Proof.
  induction s as [|c s IH]; cbn [has_lf split_lines]; [reflexivity|].
  intros H. apply orb_false_iff in H as [-> H]. now rewrite (IH H).
Qed.

Lemma scan_block_append (a b : string) :
  scan_block (a ++ String LF b)
  = fold_left scan_line (split_lines b) (scan_block a).
Proof.
  unfold scan_block. now rewrite split_lines_append, fold_left_app.
Qed.

Lemma scan_block_line (block line : string) :
  has_lf line = false ->
  scan_block (block ++ String LF line) = scan_line (scan_block block) line.
Proof.
  intros H. now rewrite scan_block_append, (split_lines_single _ H).
Qed.

Lemma startswith_append (p x : string) : startswith (p ++ x) p = true.
Proof.
  unfold startswith. induction p as [|c p IH]; simpl.
  - now destruct x.
  - destruct (ascii_dec c c); [exact IH | contradiction].
Qed.

Lemma scan_line_event (tag data x : string) :
  scan_line (tag, data) ("event:" ++ x) = (strip x, data).
Proof.
  unfold scan_line. now rewrite (startswith_append "event:" x).
Qed.

Lemma scan_line_data (tag data x : string) :
  scan_line (tag, data) ("data:" ++ x) = (tag, data ++ strip x).
Proof.
  unfold scan_line. rewrite (startswith_append "data:" x).
  replace (startswith ("data:" ++ x) "event:") with false; reflexivity.
Qed.

(** X4. A line added to a block acts on what the block gave so far: an
    [event:] line replaces the tag, a [data:] line is stripped and
    appended to the data with nothing in between, any other line (a
    comment, an [id:] or [retry:] field, an empty line) changes
    nothing. *)
Theorem scan_block_add_line (block tag data x : string) :
  scan_block block = (tag, data) -> has_lf x = false ->
  scan_block (block ++ String LF ("event:" ++ x)) = (strip x, data)
  /\ scan_block (block ++ String LF ("data:" ++ x)) = (tag, data ++ strip x)
  /\ (event_line x = false -> data_line x = false ->
       scan_block (block ++ String LF x) = (tag, data)).
Proof.
  intros S H. split; [|split].
  - rewrite scan_block_line, S by exact H. apply scan_line_event.
  - rewrite scan_block_line, S by exact H. apply scan_line_data.
  - intros E D. rewrite scan_block_line, S by exact H.
    unfold event_line, data_line in *. unfold scan_line. rewrite E in *.
    simpl in D. now rewrite D.
Qed.

(** X5. The block of the wire format, an [event:] line and a [data:]
    line, scans to the stripped tag and the stripped data, in either
    order of the two lines. *)
Theorem scan_block_wire_format (t x : string) :
  has_lf t = false -> has_lf x = false ->
  scan_block (("event:" ++ t) ++ String LF ("data:" ++ x)) = (strip t, strip x)
  /\ scan_block (("data:" ++ x) ++ String LF ("event:" ++ t)) = (strip t, strip x).
Proof.
  intros Ht Hx. split.
  - rewrite scan_block_line by exact Hx.
    unfold scan_block. rewrite split_lines_single by exact Ht.
    cbn [fold_left]. now rewrite scan_line_event, scan_line_data.
  - rewrite scan_block_line by exact Ht.
    unfold scan_block. rewrite split_lines_single by exact Hx.
    cbn [fold_left]. now rewrite scan_line_data, scan_line_event.
Qed.

Lemma scan_fold_no_event (lines : list string) (tag data : string) :
  (forall line, In line lines -> event_line line = false) ->
  fst (fold_left scan_line lines (tag, data)) = tag.
Proof.
  revert tag data.
  induction lines as [|line lines IH]; intros tag data H; [reflexivity|].
  cbn [fold_left]. unfold scan_line at 2.
  pose proof (H line (or_introl eq_refl)) as E. unfold event_line in E.
  rewrite E.
  destruct (startswith line "data:"); apply IH; intros l L; apply H; now right.
Qed.

Lemma scan_fold_no_data (lines : list string) (tag data : string) :
  (forall line, In line lines -> data_line line = false) ->
  snd (fold_left scan_line lines (tag, data)) = data.
Proof.
  revert tag data.
  induction lines as [|line lines IH]; intros tag data H; [reflexivity|].
  cbn [fold_left]. unfold scan_line at 2.
  pose proof (H line (or_introl eq_refl)) as E. unfold data_line in E.
  destruct (startswith line "event:");
    [|simpl in E; rewrite E]; apply IH; intros l L; apply H; now right.
Qed.

Lemma parse_without_lines (block : string) :
  (forall line, In line (split_lines block) -> event_line line = false)
  \/ (forall line, In line (split_lines block) -> data_line line = false) ->
  _parse_sse_block block = Ok None.
Proof.
  intros H. unfold _parse_sse_block.
  destruct (scan_block block) as [tag data] eqn:S. unfold scan_block in S.
  destruct H as [H|H].
  - pose proof (scan_fold_no_event _ "" "" H) as E. rewrite S in E.
    simpl in E. now subst.
  - pose proof (scan_fold_no_data _ "" "" H) as E. rewrite S in E.
    simpl in E. subst. now rewrite orb_true_r.
Qed.

(** X6. A block yields an event, or an exception, only if one of its
    lines is an [event:] line and another a [data:] line: a block
    without either gives nothing. *)
Theorem event_needs_both_lines (block : string) :
  (forall line, In line (split_lines block) -> event_line line = false)
  \/ (forall line, In line (split_lines block) -> data_line line = false) ->
  _parse_sse_block block = Ok None.
Proof. apply parse_without_lines. Qed.

Lemma dispatch_type (tag : string) (parsed : pyval) (ev : StreamEvent) :
  dispatch tag parsed = Ok (Some ev) -> event_type_of ev = tag.
Proof.
  unfold dispatch.
  repeat match goal with
  | |- context [String.eqb tag ?k] =>
      destruct (String.eqb_spec tag k) as [->|_]
  end; intros H;
  repeat match type of H with
  | Py.bind _ _ = Ok _ => apply bind_ok in H as (? & _ & H)
  end;
  now inversion H.
Qed.

(** X7. The type of an emitted event is the tag of its block, and that
    tag is one of the five known ones. *)
Theorem event_type_is_block_tag (block : string) (ev : StreamEvent) :
  _parse_sse_block block = Ok (Some ev) ->
  event_type_of ev = fst (scan_block block)
  /\ In (event_type_of ev) known_tags.
Proof.
  unfold _parse_sse_block.
  destruct (scan_block block) as [tag data].
  destruct (str_empty tag || str_empty data); [discriminate|].
  destruct (json_loads data) as [parsed| |x]; try discriminate.
  intros H. apply dispatch_type in H. split; [exact H|].
  destruct ev; subst; simpl; tauto.
Qed.

(** X8. With object data the blocks tagged [token], [tool_start],
    [tool_end] and [error] never raise: they yield their event with the
    entries of the object, the empty string standing for a missing
    one. *)
Theorem plain_events_total (block tag data : string) (d : dict) :
  scan_block block = (tag, data) -> data <> "" ->
  json_loads data = Loaded (PDict d) ->
  (tag = "token" ->
   _parse_sse_block block = Ok (Some (TokenEvent (dict_get d "content" (PStr "")))))
  /\ (tag = "tool_start" ->
       _parse_sse_block block = Ok (Some (ToolStartEvent (dict_get d "tool" (PStr "")))))
  /\ (tag = "tool_end" ->
       _parse_sse_block block = Ok (Some (ToolEndEvent (dict_get d "tool" (PStr "")))))
  /\ (tag = "error" ->
       _parse_sse_block block
       = Ok (Some (ErrorEvent (dict_get d "code" (PStr ""))
                              (dict_get d "message" (PStr ""))))).
Proof.
  intros S D J. apply str_empty_false in D.
  unfold _parse_sse_block. rewrite S.
  repeat split; intros ->; simpl; rewrite D, J; reflexivity.
Qed.

(** X9. A block tagged [done] with object data passes on the exception
    of decoding its [response] entry (so a [response] that is [null] or
    no object raises [AttributeError]), and raises [AttributeError] on a
    truthy top-level [usage] that is no object; with neither entry it
    yields a [DoneEvent] of the default response and the default
    usage. *)
Theorem done_block_failures (block data : string) (d : dict) :
  scan_block block = ("done", data) -> data <> "" ->
  json_loads data = Loaded (PDict d) ->
  (forall e, AgentResponse.from_dict (dict_get d "response" (PDict [])) = Raise e ->
             _parse_sse_block block = Raise e)
  /\ (forall v, dict_lookup d "response" = Some v -> is_dict v = false ->
       _parse_sse_block block = Raise AttributeError)
  /\ (forall resp v,
        AgentResponse.from_dict (dict_get d "response" (PDict [])) = Ok resp ->
        dict_lookup d "usage" = Some v -> truthy v = true -> is_dict v = false ->
        _parse_sse_block block = Raise AttributeError)
  /\ (dict_lookup d "response" = None ->
       truthy (dict_get d "usage" PNone) = false ->
       _parse_sse_block block
       = Ok (Some (DoneEvent
                     (AgentResponse.mk (PStr "") (PStr "agent.response") (PStr "")
                        (PList []) [] Usage.default
                        (Meta.mk (PInt 0) (PStr "") (PStr "")))
                     Usage.default))).
Proof.
  intros S D J. apply str_empty_false in D.
  assert (P : _parse_sse_block block = dispatch "done" (PDict d)).
  { unfold _parse_sse_block. rewrite S. simpl. now rewrite D, J. }
  rewrite P, dispatch_done. cbn [Py.get Py.bind].
  split; [|split; [|split]].
  - intros e E. now rewrite E.
  - intros v L N. unfold dict_get at 1. rewrite L.
    destruct v; try discriminate; reflexivity.
  - intros resp v E L T N. rewrite E. cbn [Py.bind].
    unfold dict_get at 1 2. rewrite L, T. cbn [Py.bind].
    destruct v; try discriminate; reflexivity.
  - intros L T. unfold dict_get in T |- *. rewrite L, T. reflexivity.
Qed.

(** *** More on the Stream Decoder *)

Lemma all_space_append (a b : string) :
  all_space (a ++ b) = all_space a && all_space b.
Proof.
  induction a as [|c a IH]; simpl; [reflexivity|].
  now rewrite IH, andb_assoc.
Qed.

Lemma all_space_strip (s : string) : all_space s = true -> strip s = "".
Proof.
  unfold strip. induction s as [|c s IH]; simpl; [reflexivity|].
  intros H. apply andb_true_iff in H as [-> H]. auto.
Qed.

Lemma all_space_lines (s : string) :
  all_space s = true ->
  forall line, In line (split_lines s) -> all_space line = true.
Proof.
  induction s as [|c s IH]; cbn [all_space split_lines]; intros H line L.
  - destruct L as [<-|[]]. reflexivity.
  - apply andb_true_iff in H as [Hc H]. specialize (IH H).
    destruct (Ascii.eqb c LF).
    + destruct L as [<-|L]; [reflexivity | now apply IH].
    + destruct (split_lines s) as [|l ls].
      * destruct L as [<-|[]]. simpl. now rewrite Hc.
      * destruct L as [<-|L].
        -- simpl. rewrite Hc. apply IH. now left.
        -- apply IH. now right.
Qed.

Lemma all_space_no_event (line : string) :
  all_space line = true -> event_line line = false.
Proof.
  unfold event_line, startswith. destruct line as [|c line]; [reflexivity|].
  cbn [all_space String.prefix]. intros H. apply andb_true_iff in H as [Hc _].
  destruct (ascii_dec "e" c) as [<-|]; [discriminate | reflexivity].
Qed.

Lemma all_space_block (block : string) :
  all_space block = true -> _parse_sse_block block = Ok None.
Proof.
  intros H. apply parse_without_lines. left. intros line L.
  apply all_space_no_event. eapply all_space_lines; eauto.
Qed.

Lemma emit_all_all_space (s : string) (final : option AgentResponse.t) :
  all_space s = true -> emit_all (blocks_of s) final = mkRun [] Exhausted final.
Proof.
  remember (String.length s) as n eqn:Hn. revert s Hn.
  induction n as [n IH] using lt_wf_ind. intros s Hn H.
  rewrite blocks_of_unfold.
  destruct (split_once s) as [[block rest]|] eqn:S.
  - pose proof (split_once_length _ _ _ S) as L.
    apply split_once_eq in S. subst s.
    rewrite all_space_append in H. apply andb_true_iff in H as [Hb Hr].
    cbn [emit_all]. rewrite (all_space_block _ Hb).
    apply (IH (String.length rest)); [lia | reflexivity |].
    unfold SEP in Hr. simpl in Hr. exact Hr.
  - now rewrite (all_space_strip _ H).
Qed.

(** X10. A stream of white space only (keep-alive line feeds, or
    nothing at all) yields no event and ends normally, whatever the
    chunks. *)
Theorem whitespace_stream_is_silent (cs : list string)
  (final : option AgentResponse.t) :
  all_space (join cs) = true ->
  drain (mkStream cs final) = mkRun [] Exhausted final.
Proof.
  intros H. rewrite drain_spec. now apply emit_all_all_space.
Qed.

Lemma emit_all_events (bs : list string) (final : option AgentResponse.t) :
  List.length (events (emit_all bs final)) <= List.length bs
  /\ Forall (fun ev => exists b, In b bs /\ _parse_sse_block b = Ok (Some ev))
            (events (emit_all bs final)).
Proof.
  revert final. induction bs as [|b bs IH]; intros final; simpl.
  - split; [lia | constructor].
  - destruct (_parse_sse_block b) as [[ev|]|e] eqn:P; simpl.
    + destruct (IH (record_done ev final)) as [L F]. split; [lia|].
      constructor; [now exists b; auto|].
      eapply Forall_impl; [|exact F]. intros ev' (b' & I & P').
      exists b'. auto.
    + destruct (IH final) as [L F]. split; [lia|].
      eapply Forall_impl; [|exact F]. intros ev' (b' & I & P').
      exists b'. auto.
    + split; [lia | constructor].
Qed.

(** X11. A run emits at most one event per block of the text, and every
    event it emits is what the Block Parser returns on one of those
    blocks. *)
Theorem events_come_from_blocks (cs : list string)
  (final : option AgentResponse.t) :
  let r := drain (mkStream cs final) in
  List.length (events r) <= List.length (blocks_of (join cs))
  /\ Forall (fun ev => exists b, In b (blocks_of (join cs))
                                 /\ _parse_sse_block b = Ok (Some ev))
            (events r).
Proof.
  cbv zeta. rewrite drain_spec. apply emit_all_events.
Qed.

Lemma join_app (a b : list string) : join (a ++ b) = join a ++ join b.
Proof.
  induction a as [|x a IH]; simpl; [reflexivity|].
  now rewrite IH, append_assoc.
Qed.

Lemma blocks_of_reassemble (bs : list string) (t : string) :
  Forall (fun b => forall x, split_once (b ++ SEP x) = Some (b, x)) bs ->
  blocks_of (reassemble bs "" ++ t) = (bs ++ blocks_of t)%list.
Proof.
  induction bs as [|b bs IH]; intros H; [reflexivity|].
  inversion H as [|? ? Hb Hbs]; subst. cbn [reassemble fold_right].
  rewrite append_assoc.
  change (SEP (fold_right (fun b0 acc => b0 ++ SEP acc) "" bs) ++ t)
    with (SEP (reassemble bs "" ++ t)).
  rewrite blocks_of_unfold, Hb. simpl. now rewrite (IH Hbs).
Qed.

(** X12. Decoding composes at a block boundary: when the first chunks
    end exactly where a block ends and their run ends normally, the run
    over all the chunks is their run followed by the run over the other
    chunks, started with what the first run recorded. *)
Theorem drain_at_block_boundary (cs1 cs2 : list string) (bs : list string)
  (final : option AgentResponse.t) :
  split_blocks (join cs1) = (bs, "") ->
  ended (drain (mkStream cs1 final)) = Exhausted ->
  let r1 := drain (mkStream cs1 final) in
  let r2 := drain (mkStream cs2 (recorded r1)) in
  drain (mkStream (cs1 ++ cs2) final)
  = mkRun (events r1 ++ events r2) (ended r2) (recorded r2).
Proof.
  intros B E. cbv zeta. revert E. rewrite !drain_spec. simpl.
  destruct (split_blocks_sound _ _ _ B) as (Hr & Hall & _).
  assert (B1 : blocks_of (join cs1) = bs).
  { unfold blocks_of. rewrite B. simpl. now rewrite app_nil_r. }
  rewrite join_app, B1. rewrite Hr at 1.
  rewrite (blocks_of_reassemble _ _ Hall).
  intros E. now rewrite (emit_all_app _ _ _ E).
Qed.

Lemma verdict_emit (ev : StreamEvent) (r : run) (final : option AgentResponse.t) :
  is_done ev = false -> verdict (emit ev r) final = verdict r final.
Proof. destruct ev; try discriminate; reflexivity. Qed.

Lemma final_response_fuel_verdict (n : nat) (f : frame)
  (final : option AgentResponse.t) :
  value (final_response_fuel n f final) = verdict (drain_fuel n f final) final.
Proof.
  revert f final. induction n as [|n IH]; intros f final; simpl; [reflexivity|].
  destruct (next f final) as [ev f' final'| | |] eqn:E; try reflexivity.
  - destruct (next_yield_size _ _ _ _ _ E) as [_ ->].
    destruct ev; try reflexivity;
      (rewrite verdict_emit by reflexivity; apply IH).
  - now destruct final.
Qed.

(** X13. What [final_response] answers is read off the complete run of
    the stream: the response of the first done event; without one, the
    exception that ended the run, else the response recorded before,
    else the [RuntimeError].  So it does not depend on how the text was
    cut into chunks. *)
Theorem final_response_by_run (cs cs' : list string)
  (final : option AgentResponse.t) :
  value (final_response (mkStream cs final))
  = verdict (drain (mkStream cs final)) final
  /\ (join cs = join cs' ->
       value (final_response (mkStream cs final))
       = value (final_response (mkStream cs' final))).
Proof.
  assert (V : forall c, value (final_response (mkStream c final))
                        = verdict (drain (mkStream c final)) final)
    by (intros c; apply final_response_fuel_verdict).
  split; [apply V|].
  intros J. rewrite !V, !drain_spec. simpl. now rewrite J.
Qed.

Lemma final_response_fuel_records (n : nat) (f : frame)
  (final : option AgentResponse.t) (resp : AgentResponse.t) :
  value (final_response_fuel n f final) = Some (Ok resp) ->
  left_final (final_response_fuel n f final) = Some resp.
Proof.
  revert f final. induction n as [|n IH]; intros f final; simpl; [discriminate|].
  destruct (next f final) as [ev f' final'| | |] eqn:E; simpl; try discriminate.
  - destruct (next_yield_size _ _ _ _ _ E) as [_ ->].
    destruct ev; try apply IH. simpl. now intros [= ->].
  - destruct final; simpl; [now intros [= ->] | discriminate].
Qed.

(** X14. When [final_response] returns a response, that response is the
    one recorded on the stream afterwards. *)
Theorem final_response_records_result (self : AgentStream)
  (resp : AgentResponse.t) :
  value (final_response self) = Some (Ok resp) ->
  left_final (final_response self) = Some resp.
Proof. apply final_response_fuel_records. Qed.

(** *** More on the client *)

Lemma rstrip_char_spec (c : ascii) (s : string) :
  exists n, s = rstrip_char c s ++ repeat_char c n.
Proof.
  induction s as [|x s [n IH]]; [now exists 0|].
  cbn [rstrip_char]. destruct (rstrip_char c s) as [|y r].
  - simpl in IH. destruct (Ascii.eqb_spec x c) as [->|].
    + exists (S n). simpl. now rewrite <- IH.
    + exists n. simpl. now rewrite <- IH.
  - exists n. simpl. now rewrite IH at 1.
Qed.

Lemma rstrip_char_end (c : ascii) (s p : string) :
  rstrip_char c s <> p ++ String c "".
Proof.
  revert p. induction s as [|x s IH]; intros p; cbn [rstrip_char].
  - now destruct p.
  - destruct (rstrip_char c s) as [|y r].
    + destruct (Ascii.eqb_spec x c) as [->|N]; [now destruct p|].
      destruct p as [|z [|w p]]; simpl; intros H; inversion H; congruence.
    + destruct p as [|z p]; simpl; intros H; inversion H.
      eapply IH; eauto.
Qed.

(** X15. With an empty API key the constructor raises its
    [ValueError] without calling [httpx.Client].  With any other key it
    calls [httpx.Client] with the base URL (the default one when none is
    given) stripped of its trailing slashes (what is passed does not end
    with a slash and differs from what was given by slashes only), with
    the timeout, and with headers that carry the key as a bearer token;
    it raises what that call raises, and otherwise the client keeps the
    key and the stripped URL. *)
Theorem client_construction {E : Type}
  (httpx_Client : string -> pyfloat -> list (string * string) -> option E)
  (api_key : string) (base_url : option string) (t : option pyfloat) :
  let given := match base_url with Some u => u | None => _DEFAULT_BASE_URL end in
  let wanted := match t with Some x => x | None => _DEFAULT_TIMEOUT end in
  (api_key = "" ->
   exists msg, Stewrd__init__ httpx_Client api_key base_url t = RaiseValueError msg)
  /\ (api_key <> "" ->
       exists stored hdrs,
         (exists n, given = stored ++ repeat_char "/" n)
         /\ (forall p, stored <> p ++ "/")
         /\ (base_url = None -> stored = _DEFAULT_BASE_URL)
         /\ In ("Authorization", "Bearer " ++ api_key) hdrs
         /\ Stewrd__init__ httpx_Client api_key base_url t =
            match httpx_Client stored wanted hdrs with
            | Some e => RaiseFromHttpx e
            | None => Built (mkClient api_key stored wanted hdrs)
            end).
Proof.
  cbv zeta. unfold Stewrd__init__. split.
  - intros ->. simpl. eauto.
  - intros N. apply str_empty_false in N. rewrite N.
    eexists. eexists.
    split; [apply rstrip_char_spec|]. split; [apply rstrip_char_end|].
    split; [intros ->; reflexivity|]. split; [|reflexivity]. now left.
Qed.

Lemma iter_raise (v : pyval) (e : exn) : Py.iter v = Raise e -> e = TypeError.
Proof. destruct v; simpl; intros H; now inversion H. Qed.

Lemma from_dict_raise_kind (v : pyval) (e : exn) :
  AgentResponse.from_dict v = Raise e -> e = TypeError \/ e = AttributeError.
Proof.
  destruct v as [| | | | | |d]; try (intros H; inversion H; now right).
  rewrite from_dict_unfold.
  destruct (Py.iter (dict_get d "files" (PList []))) as [items|e0] eqn:I;
    cbn [Py.bind]; [|intros H; inversion H; subst; left; eapply iter_raise; eauto].
  destruct (forallb is_dict items) eqn:A;
    [|rewrite (mapM_files_raise _ A); intros H; inversion H; now right].
  destruct (mapM_files_ok _ A) as (fl & E & _). rewrite E. cbn [Py.bind].
  pose proof (simple_decoders_dict (dict_get d "usage" (PDict []))) as U.
  pose proof (simple_decoders_dict (dict_get d "meta" (PDict []))) as M.
  destruct (dict_get d "usage" (PDict [])); destruct U as [U _];
    rewrite U; cbn [Py.bind]; try (intros H; inversion H; now right).
  destruct (dict_get d "meta" (PDict [])); destruct M as [_ M];
    rewrite M; cbn [Py.bind]; intros H; inversion H; now right.
Qed.

Lemma handle_error_status (response : Response) :
  exists code message docs,
    _handle_error response = StewrdError (status_code response) code message docs.
Proof.
  unfold _handle_error.
  match goal with
  | |- context [match ?a with Ok _ => _ | Raise _ => _ end] =>
      destruct a as [[[c m] x]|]
  end; eauto.
Qed.

(** X16. [run] raises the [StewrdError] of [_handle_error] when the
    status is 400 or more, and a [StewrdError] in no other case, always
    with the status of the response.  Below 400 (1xx and 3xx included)
    it decodes the body: a body that is not JSON raises the JSON decode
    error, any other body goes to [AgentResponse.from_dict]. *)
Theorem run_outcomes (send : string -> dict -> Response) (message : string)
  (capabilities : option (list string)) (files : option (list InputFile.t)) :
  let response :=
    send "/v1/agent" (_build_body message capabilities files false) in
  let answer := run_agent send message capabilities files in
  ((400 <= status_code response)%Z -> answer = Raise (_handle_error response))
  /\ ((status_code response < 400)%Z ->
       json_loads (join (body_chunks response)) = DecodeError ->
       answer = Raise JSONDecodeError)
  /\ ((status_code response < 400)%Z ->
       forall v, json_loads (join (body_chunks response)) = Loaded v ->
                 answer = AgentResponse.from_dict v)
  /\ (forall status code msg docs,
        answer = Raise (StewrdError status code msg docs) ->
        (400 <= status_code response)%Z /\ status = status_code response).
Proof.
  cbv zeta. unfold run_agent, _request.
  set (response := send "/v1/agent" (_build_body message capabilities files false)).
  destruct (400 <=? status_code response)%Z eqn:S.
  - apply Z.leb_le in S. cbn [Py.bind].
    split; [reflexivity|]. split; [lia|]. split; [lia|].
    intros status code msg docs H.
    destruct (handle_error_status response) as (c & m & x & E).
    rewrite E in H. inversion H; subst. now split.
  - apply Z.leb_gt in S. cbn [Py.bind]. unfold json.
    split; [lia|]. split; [now intros _ ->|]. split; [now intros _ v ->|].
    intros status code msg docs.
    destruct (json_loads (join (body_chunks response))) as [v| |x];
      cbn [Py.bind]; try discriminate.
    intros H. apply from_dict_raise_kind in H as [H|H]; discriminate.
Qed.


End Stewrd.

Arguments Built {E} client.
Arguments RaiseValueError {E} msg.
Arguments RaiseFromHttpx {E} e.


(* ------------------------------------------------------------------ *)
(** ** Concrete runs, with [Json.loads] for [json.loads] *)

Module Runs.
Import Json Samples.

Example two_events_run :
  drain loads (__init__ [two_events])
  = mkRun [TokenEvent (PStr "hi"); DoneEvent r1 five_tokens] Exhausted (Some r1).
Proof. vm_compute. reflexivity. Qed.

Example two_events_final_response :
  value (final_response loads (__init__ [two_events])) = Some (Ok r1).
Proof. vm_compute. reflexivity. Qed.

(** An unterminated last block is decoded all the same. *)
Example unterminated_run :
  events (drain loads (__init__ [token_block])) = [TokenEvent (PStr "hi")].
Proof. vm_compute. reflexivity. Qed.

(** The generator of [final_response] is left where it yielded the done
    event: the token block after it is never parsed. *)
Example final_response_stops_at_done :
  let o := final_response loads (__init__ [done_then_token]) in
  value o = Some (Ok r1) /\ buffer (left_frame o) = token_block ++ SEP "".
Proof. vm_compute. split; reflexivity. Qed.

Lemma rechunking_invariance_witness :
  drain loads (mkStream (one_by_one two_events) None)
  = drain loads (mkStream [two_events] None).
Proof.
  apply (rechunking_invariance loads two_events (one_by_one two_events)
           [two_events] None); vm_compute; reflexivity.
Defined.

Lemma decoder_refines_blocks_witness :
  drain loads (mkStream [token_block; String LF ""; String LF done_block] None)
  = emit_all loads [token_block; done_block] None.
Proof.
  destruct (decoder_refines_blocks loads
              [token_block; String LF ""; String LF done_block] None
              [token_block] done_block)
    as (_ & _ & _ & _ & _ & H).
  - vm_compute. reflexivity.
  - apply H. vm_compute. discriminate.
Defined.

Lemma final_response_first_done_witness :
  let o := final_response loads (__init__ [token_block ++ SEP ""]) in
  value o = Some (Raise no_done)
  /\ chunks (left_frame o) = [] /\ returned (left_frame o) = true.
Proof.
  destruct (final_response_first_done loads (__init__ [token_block ++ SEP ""]))
    as (_ & _ & H & _).
  apply H; vm_compute; reflexivity.
Defined.

Lemma done_event_fields_witness :
  exists resp u,
    nested_usage_event = DoneEvent resp u
    /\ Usage.from_dict (PDict [("tokens_used", PInt 5)]) = Ok u.
Proof.
  destruct (done_event_fields loads nested_usage_block nested_usage_data
              nested_usage_dict nested_usage_event)
    as (resp & u & E & _ & _ & _ & H).
  - vm_compute. reflexivity.
  - vm_compute. discriminate.
  - vm_compute. reflexivity.
  - vm_compute. reflexivity.
  - exists resp, u. split; [exact E|].
    destruct (H eq_refl) as [H1 _]. exact (H1 _ eq_refl).
Defined.

(** C3 as stated fails: a top-level [usage] that is present but empty is
    passed over for the one under [response]. *)
Lemma done_usage_counterexample :
  exists d resp u,
    scan_block empty_usage_block = ("done", empty_usage_data)
    /\ loads empty_usage_data = Loaded (PDict d)
    /\ _parse_sse_block loads empty_usage_block = Ok (Some (DoneEvent resp u))
    /\ dict_lookup d "usage" = Some (PDict [])
    /\ Usage.from_dict (PDict []) = Ok Usage.default
    /\ Usage.tokens_used u = PInt 5
    /\ u <> Usage.default.
Proof.
  do 3 eexists.
  split; [vm_compute; reflexivity|].
  split; [vm_compute; reflexivity|].
  split; [vm_compute; reflexivity|].
  split; [vm_compute; reflexivity|].
  split; [reflexivity|].
  split; [reflexivity|].
  discriminate.
Qed.

Lemma from_dict_id_fallback_witness :
  AgentResponse.id req_9 = PStr "req_9"
  /\ run_agent loads
       (fun _ _ => mkResponse 200 "OK" [lit "{'request_id':'req_9'}"])
       "hello" None None = Ok req_9.
Proof.
  destruct (from_dict_id_fallback loads request_id_only req_9 eq_refl)
    as (_ & H & R).
  split.
  - destruct (H eq_refl) as [H1 _]. exact (H1 _ eq_refl).
  - apply R; vm_compute; reflexivity.
Defined.

(** C4 as stated fails: an [id] that is present but empty is passed over
    for [request_id]. *)
Lemma from_dict_id_counterexample :
  exists r,
    AgentResponse.from_dict (PDict empty_id) = Ok r
    /\ dict_lookup empty_id "id" = Some (PStr "")
    /\ AgentResponse.id r = PStr "req_9"
    /\ AgentResponse.id r <> PStr "".
Proof.
  eexists.
  split; [vm_compute; reflexivity|].
  split; [reflexivity|].
  split; [reflexivity|].
  discriminate.
Qed.

Lemma undecodable_block_dropped_witness :
  _parse_sse_block loads broken_block = Ok None
  /\ drain loads (mkStream [broken_block ++ SEP (done_block ++ SEP "")] None)
     = drain loads (mkStream [done_block ++ SEP ""] None).
Proof.
  destruct (undecodable_block_dropped loads broken_block "token" (lit "{oops"))
    as (P & H & _).
  - vm_compute. reflexivity.
  - right. right. left. vm_compute. reflexivity.
  - split; [exact P|]. apply H. vm_compute. reflexivity.
Defined.

(** The failing input of C5: the integer is over the digit limit, the
    parser raises, and the done block after it is never decoded. *)
Lemma json_exception_escapes_witness :
  _parse_sse_block loads ping_block = Raise (Builtin ValueError)
  /\ drain loads (mkStream [ping_block ++ SEP (done_block ++ SEP "")] None)
     = mkRun [] (Raised (Builtin ValueError)) None.
Proof.
  destruct (json_exception_escapes loads ping_block "ping" long_integer ValueError)
    as (P & H).
  - vm_compute. reflexivity.
  - discriminate.
  - vm_compute. discriminate.
  - vm_compute. reflexivity.
  - split; [exact P|]. apply (H _ (done_block ++ SEP "")). vm_compute. reflexivity.
Defined.

(** One digit less and the same block is dropped. *)
Example digit_limit_boundary :
  (exists z, loads (ones 4300) = Loaded (PInt z))
  /\ _parse_sse_block loads ("event: ping" ++ String LF ("data: " ++ ones 4300))
     = Ok None.
Proof. split; [eexists|]; vm_compute; reflexivity. Qed.

Lemma non_object_data_raises_witness :
  _parse_sse_block loads number_block = Raise AttributeError
  /\ drain loads (mkStream [number_block ++ SEP (done_block ++ SEP "")] None)
     = mkRun [] (Raised AttributeError) None.
Proof.
  destruct (non_object_data_raises loads number_block "token" "5" (PInt 5))
    as (P & H).
  - vm_compute. reflexivity.
  - left. reflexivity.
  - discriminate.
  - vm_compute. reflexivity.
  - reflexivity.
  - split; [exact P|]. apply (H _ (done_block ++ SEP "")). vm_compute. reflexivity.
Defined.

Lemma iteration_continues_after_done_witness :
  events (drain loads (mkStream [done_then_token] None))
  = [DoneEvent r1 five_tokens; TokenEvent (PStr "hi")]
  /\ recorded (drain loads (mkStream [done_then_token] None)) = Some r1.
Proof.
  destruct (iteration_continues_after_done loads [done_then_token] None)
    as (_ & H).
  destruct (H [] done_block [token_block] r1 five_tokens)
    as (E & _ & R & _); try (vm_compute; reflexivity).
  split; [exact E | exact R].
Defined.

(** The error body of the specification's example. *)
Lemma handle_error_defaults_witness :
  _handle_error loads
    (mkResponse 401 "Unauthorized"
       [lit "{'error':{'code':'invalid_api_key','message':'bad key'}}"])
  = StewrdError 401 (PStr "invalid_api_key") (PStr "bad key") PNone.
Proof.
  destruct (handle_error_defaults loads
              (mkResponse 401 "Unauthorized"
                 [lit "{'error':{'code':'invalid_api_key','message':'bad key'}}"]))
    as (_ & _ & H & _).
  apply (H (PDict [("error", PDict [("code", PStr "invalid_api_key");
                                    ("message", PStr "bad key")])])
           [("code", PStr "invalid_api_key"); ("message", PStr "bad key")]);
    vm_compute; reflexivity.
Defined.

(** C7 as stated fails: with an empty reason phrase the message is not
    the reason phrase. *)
Lemma handle_error_counterexample :
  exists code message docs,
    _handle_error loads (mkResponse 500 "" ["oops"])
    = StewrdError 500 code message docs
    /\ message = PStr "Unknown error"
    /\ message <> PStr (reason_phrase (mkResponse 500 "" ["oops"])).
Proof.
  do 3 eexists.
  split; [vm_compute; reflexivity|].
  split; [reflexivity | discriminate].
Qed.

Lemma build_body_keys_witness :
  let body := _build_body "hello" (Some []) None false in
  dict_lookup body "capabilities" = Some (PList [])
  /\ dict_lookup body "files" = None
  /\ In "capabilities" ["message"; "stream"; "capabilities"; "files"].
Proof.
  destruct (build_body_keys loads "hello" (Some []) None false)
    as (_ & _ & C & F & K & _).
  split; [exact C|]. split; [exact F|].
  exact (K "capabilities" (PList []) eq_refl).
Defined.

End Runs.

(* ------------------------------------------------------------------ *)
(** ** More concrete runs *)

Module MoreRuns.
Import Json Samples.

Lemma from_dict_returns_iff_witness :
  AgentResponse.from_dict (PDict [("files", PInt 3)]) = Raise TypeError.
Proof.
  destruct (from_dict_returns_iff [("files", PInt 3)]) as (_ & H & _).
  exact (H TypeError eq_refl).
Defined.

Lemma from_dict_fields_witness :
  Forall2 decodes_file [PDict [("name", PStr "a.txt"); ("url", PStr "u")]]
    (AgentResponse.files one_file_response).
Proof.
  destruct (from_dict_fields one_file one_file_response eq_refl) as (H & _).
  exact (H _ eq_refl).
Defined.

Lemma unknown_fields_ignored_witness :
  AgentResponse.from_dict (PDict (dict_set request_id_only "trace" (PInt 1)))
  = AgentResponse.from_dict (PDict request_id_only).
Proof.
  destruct (unknown_fields_ignored request_id_only request_id_only)
    as (_ & _ & _ & _ & H).
  apply H. simpl. intuition discriminate.
Defined.

Lemma scan_block_add_line_witness :
  scan_block (token_block ++ String LF ("event:" ++ " done "))
  = ("done", token_data)
  /\ scan_block (token_block ++ String LF ("data:" ++ " [1] "))
     = ("token", token_data ++ "[1]").
Proof.
  destruct (scan_block_add_line token_block "token" token_data " done ")
    as (E & _); [vm_compute; reflexivity | reflexivity |].
  destruct (scan_block_add_line token_block "token" token_data " [1] ")
    as (_ & D & _); [vm_compute; reflexivity | reflexivity |].
  split; [exact E | exact D].
Defined.

Lemma scan_block_wire_format_witness :
  scan_block (("event:" ++ " token ") ++ String LF ("data:" ++ " {} "))
  = ("token", "{}").
Proof.
  destruct (scan_block_wire_format " token " " {} ") as (H & _);
    [reflexivity | reflexivity | exact H].
Defined.

Lemma event_needs_both_lines_witness :
  _parse_sse_block loads ": keep-alive" = Ok None.
Proof.
  apply (event_needs_both_lines loads ": keep-alive").
  left. intros line [<-|[]]. reflexivity.
Defined.

Lemma event_type_is_block_tag_witness :
  event_type_of (TokenEvent (PStr "hi")) = fst (scan_block token_block).
Proof.
  destruct (event_type_is_block_tag loads token_block (TokenEvent (PStr "hi")))
    as (H & _); [vm_compute; reflexivity | exact H].
Defined.

Lemma plain_events_total_witness :
  _parse_sse_block loads error_block
  = Ok (Some (ErrorEvent (PStr "rate_limited") (PStr ""))).
Proof.
  destruct (plain_events_total loads error_block "error" error_data
              [("code", PStr "rate_limited")])
    as (_ & _ & _ & H).
  - vm_compute. reflexivity.
  - vm_compute. discriminate.
  - vm_compute. reflexivity.
  - exact (H eq_refl).
Defined.

Lemma done_block_failures_witness :
  _parse_sse_block loads null_response_block = Raise AttributeError.
Proof.
  destruct (done_block_failures loads null_response_block
              (lit "{'response':null}") [("response", PNone)])
    as (_ & H & _).
  - vm_compute. reflexivity.
  - vm_compute. discriminate.
  - vm_compute. reflexivity.
  - exact (H PNone eq_refl eq_refl).
Defined.

Lemma whitespace_stream_is_silent_witness :
  drain loads (mkStream keep_alive None) = mkRun [] Exhausted None.
Proof.
  apply (whitespace_stream_is_silent loads keep_alive None).
  vm_compute. reflexivity.
Defined.

Lemma events_come_from_blocks_witness :
  List.length (events (drain loads (mkStream [two_events] None)))
  <= List.length (blocks_of (join [two_events])).
Proof.
  destruct (events_come_from_blocks loads [two_events] None) as (H & _).
  exact H.
Defined.

Lemma drain_at_block_boundary_witness :
  drain loads (mkStream ([token_block ++ SEP ""] ++ [done_block ++ SEP ""]) None)
  = mkRun [TokenEvent (PStr "hi"); DoneEvent r1 five_tokens] Exhausted (Some r1).
Proof.
  rewrite (drain_at_block_boundary loads [token_block ++ SEP ""]
             [done_block ++ SEP ""] [token_block] None);
    vm_compute; reflexivity.
Defined.

Lemma final_response_by_run_witness :
  value (final_response loads (mkStream (one_by_one two_events) None))
  = value (final_response loads (mkStream [two_events] None)).
Proof.
  destruct (final_response_by_run loads (one_by_one two_events) [two_events] None)
    as (_ & H).
  apply H. vm_compute. reflexivity.
Defined.

Lemma final_response_records_result_witness :
  left_final (final_response loads (__init__ [two_events])) = Some r1.
Proof.
  apply (final_response_records_result loads (__init__ [two_events]) r1).
  vm_compute. reflexivity.
Defined.

Lemma client_construction_witness :
  exists stored hdrs,
    (exists n, "https://x.dev//" = stored ++ repeat_char "/" n)
    /\ (forall p, stored <> p ++ "/")
    /\ (Some "https://x.dev//" = None -> stored = _DEFAULT_BASE_URL)
    /\ In ("Authorization", "Bearer " ++ "sk-stw_1") hdrs
    /\ Stewrd__init__ ascii_headers "sk-stw_1" (Some "https://x.dev//") None =
       match ascii_headers stored _DEFAULT_TIMEOUT hdrs with
       | Some e => RaiseFromHttpx e
       | None => Built (mkClient "sk-stw_1" stored _DEFAULT_TIMEOUT hdrs)
       end.
Proof.
  destruct (client_construction ascii_headers "sk-stw_1"
              (Some "https://x.dev//") None) as (_ & H).
  apply H. discriminate.
Defined.

(** The slashes are gone from the stored URL; a key outside ASCII gets
    as far as [httpx.Client], which refuses it. *)
Example client_construction_runs :
  Stewrd__init__ ascii_headers "sk-stw_1" (Some "https://x.dev//") None
  = Built (mkClient "sk-stw_1" "https://x.dev" _DEFAULT_TIMEOUT
             [("Authorization", "Bearer sk-stw_1");
              ("Content-Type", "application/json");
              ("User-Agent", _USER_AGENT)])
  /\ Stewrd__init__ ascii_headers ("sk-" ++ String "233" "") None None
     = RaiseFromHttpx "UnicodeEncodeError"
  /\ exists msg, Stewrd__init__ ascii_headers "" None None = RaiseValueError msg.
Proof. split; [|split; [|eexists]]; vm_compute; reflexivity. Qed.

(** A redirect is no error for [run]: its body is decoded. *)
Lemma run_outcomes_witness :
  run_agent loads (fun _ _ => mkResponse 302 "Found" ["moved"]) "hello" None None
  = Raise JSONDecodeError.
Proof.
  destruct (run_outcomes loads (fun _ _ => mkResponse 302 "Found" ["moved"])
              "hello" None None)
    as (_ & H & _).
  apply H; [reflexivity | vm_compute; reflexivity].
Defined.


End MoreRuns.
